(** * data_loader.py: schema alignment, normalisation and idempotent load

    A shallow embedding of [src/data_loader.py].  Cell values, data frames
    and the pandas operations the loader uses come first, then the MySQL
    cursor as an interface, the loader's functions in a small state-and-error
    monad, an in-memory instance of the cursor, and finally the properties. *)

From Stdlib Require Import ZArith Ascii String DecimalString DecimalPos DecimalZ.
From Stdlib Require Import Floats.SpecFloat.
From stdpp Require Import base tactics option list strings gmap.

Set Warnings "-clear-no-such-hyp".

(** ** Cell values *)

(** What a cell of a frame read by [pd.read_csv] and cast with
    [astype(object)] can hold.  A float is an IEEE value in the sign /
    mantissa / exponent form of [spec_float], which keeps not-a-number and
    the two infinities apart from the finite values. *)
Inductive value : Type :=
  | VNone
  | VBool (b : bool)
  | VInt (z : Z)
  | VFloat (f : spec_float)
  | VStr (s : string).

#[global] Instance spec_float_eq_dec : EqDecision spec_float.
Proof. solve_decision. Defined.

#[global] Instance value_eq_dec : EqDecision value.
Proof. solve_decision. Defined.

#[global] Instance value_inhabited : Inhabited value := populate VNone.

Definition np_nan : spec_float := S754_nan.
Definition np_inf : spec_float := S754_infinity false.
Definition np_neg_inf : spec_float := S754_infinity true.

(** ** Python text conversions *)

(** [repr] of a finite non-zero float is the shortest decimal that reads
    back to it; that algorithm belongs to the Python runtime, not to this
    program, so it is an interface of the development. *)
Class PyFloatRepr := float_repr_finite : bool → positive → Z → string.

Definition str_of_int (z : Z) : string := NilZero.string_of_int (Z.to_int z).

Definition str_of_float `{PyFloatRepr} (f : spec_float) : string :=
  match f with
  | S754_nan => "nan"
  | S754_infinity false => "inf"
  | S754_infinity true => "-inf"
  | S754_zero false => "0.0"
  | S754_zero true => "-0.0"
  | S754_finite s m e => float_repr_finite s m e
  end.

(** [str(v)], which is what [Series.astype(str)] applies to each cell of an
    object column. *)
Definition py_str `{PyFloatRepr} (v : value) : string :=
  match v with
  | VNone => "None"
  | VBool true => "True"
  | VBool false => "False"
  | VInt z => str_of_int z
  | VFloat f => str_of_float f
  | VStr s => s
  end.

(** [str.lower] on the letters A to Z.  Strings are byte strings here; the
    bytes of a character outside ASCII are left alone.  The words the loader
    compares against are ASCII and no character outside ASCII lower-cases to
    one of their letters, so membership in that word list is unaffected. *)
Definition ascii_lower (a : ascii) : ascii :=
  let n := N_of_ascii a in
  if ((65 <=? n) && (n <=? 90))%N then ascii_of_N (n + 32) else a.

Fixpoint lower (s : string) : string :=
  match s with
  | EmptyString => EmptyString
  | String a s' => String (ascii_lower a) (lower s')
  end.

(** ** Null and boolean normalisation of one cell *)

(** The keys of the dictionary passed to [df.replace] in [normalise_nulls]:
    every key maps to [None]. *)
Definition null_floats : list spec_float := [np_nan; np_inf; np_neg_inf].
Definition null_strings : list string := ["nan"; "NaN"; "None"; ""].

(** [df.replace({...})] on one cell: a cell equal to a key becomes [None],
    any other cell is kept. *)
Definition replace_nulls_value (v : value) : value :=
  match v with
  | VFloat f => if bool_decide (f ∈ null_floats) then VNone else v
  | VStr s => if bool_decide (s ∈ null_strings) then VNone else v
  | _ => v
  end.

Definition truthy : list string := ["true"; "1"; "t"; "yes"; "y"].

(** [.astype(str).str.lower().isin([...]).astype(int)] on one cell. *)
Definition bool_int_value `{PyFloatRepr} (v : value) : value :=
  VInt (if bool_decide (lower (py_str v) ∈ truthy) then 1%Z else 0%Z).

(** ** Data frames *)

(** A frame is its ordered column labels and its rows; a row holds one cell
    per label, in label order.  [pd.read_csv] hands out frames whose labels
    are pairwise distinct (it renames repeated headers), which [df_wf]
    records together with rectangularity. *)
Record DataFrame : Type := mkDF {
  columns : list string;
  rows : list (list value)
}.

Definition df_wf (df : DataFrame) : Prop :=
  NoDup (columns df) ∧ Forall (λ r, length r = length (columns df)) (rows df).

Definition len (df : DataFrame) : nat := length (rows df).

(** Position of the first column labelled [c]. *)
Definition col_index (c : string) (cols : list string) : option nat :=
  fst <$> list_find (λ x, x = c) cols.

(** The cell in row [j] under label [c]. *)
Definition cell (df : DataFrame) (j : nat) (c : string) : option value :=
  i ← col_index c (columns df); r ← rows df !! j; r !! i.

(** [df[c] = v] with a scalar [v]: an existing column is overwritten in
    place, a new one is appended on the right. *)
Definition setitem_const (c : string) (v : value) (df : DataFrame) : DataFrame :=
  match col_index c (columns df) with
  | Some i => mkDF (columns df) ((λ r, <[i:=v]> r) <$> rows df)
  | None => mkDF (columns df ++ [c]) ((λ r, r ++ [v]) <$> rows df)
  end.

(** [df[c] = f(df[c])] for an element-wise [f] and a label that is present. *)
Definition setitem_map (c : string) (f : value → value) (df : DataFrame) : DataFrame :=
  match col_index c (columns df) with
  | Some i => mkDF (columns df) ((λ r, alter f i r) <$> rows df)
  | None => df
  end.

(** [df[labels]]: the listed columns in the listed order; [None] stands for
    the [KeyError] pandas raises when a label is absent. *)
Definition getitem_cols (labels : list string) (df : DataFrame) : option DataFrame :=
  idxs ← mapM (λ c, col_index c (columns df)) labels;
  rws ← mapM (λ r : list value, mapM (λ i, r !! i) idxs) (rows df);
  Some (mkDF labels rws).

(** An element-wise map over the whole frame. *)
Definition df_map (f : value → value) (df : DataFrame) : DataFrame :=
  mkDF (columns df) ((λ r : list value, f <$> r) <$> rows df).

(** [df.iloc[i:j]]. *)
Definition iloc (i j : nat) (df : DataFrame) : DataFrame :=
  mkDF (columns df) (take (j - i) (drop i (rows df))).

(** [[tuple(x) for x in df.to_numpy()]]. *)
Definition to_numpy (df : DataFrame) : list (list value) := rows df.

(** ** The loader's pure steps *)

Definition LOAD_ORDER : list string := [
  "brands"; "platforms"; "categories"; "platform_fees"; "marketplace_accounts";
  "products"; "product_variants"; "product_listings"; "listing_prices"; "channel_inventory";
  "customers";
  "orders"; "order_items"; "order_fees"; "payments"; "shipments"; "returns"; "return_items";
  "reviews";
  "warehouses"; "inventory"
].

Definition BOOL_COLS : list (string * list string) := [
  ("product_variants", ["mount_included_flag"]);
  ("product_listings", ["is_active"]);
  ("customers", ["repeat_customer_flag"])
].

(** [d.get(k, dflt)] on a dictionary kept as its items. *)
Fixpoint dict_get {V} (k : string) (d : list (string * V)) (dflt : V) : V :=
  match d with
  | [] => dflt
  | (k', v) :: d' => if bool_decide (k' = k) then v else dict_get k d' dflt
  end.

Definition normalise_nulls (df : DataFrame) : DataFrame :=
  (* df.astype(object) leaves every cell as the Python object it is *)
  df_map replace_nulls_value df.

Definition to_bool_int `{PyFloatRepr} (df : DataFrame) (cols : list string) : DataFrame :=
  foldl (λ df c,
    if bool_decide (c ∈ columns df) then setitem_map c bool_int_value df else df)
    df cols.

(** [range(start, stop, step)] for a positive step, with CPython's length
    formula. *)
Definition py_range (start stop step : nat) : list nat :=
  let n := if bool_decide (stop ≤ start) then 0
           else (stop - start - 1) `div` step + 1 in
  (λ k, start + k * step) <$> seq 0 n.

(** The frames the generator [chunked] yields, in order.  [range] raises
    [ValueError] for a zero step, which is [None] here. *)
Definition chunked (df : DataFrame) (size : nat) : option (list DataFrame) :=
  if bool_decide (size = 0) then None
  else Some ((λ i, iloc i (i + size) df) <$> py_range 0 (len df) size).

(** ** The database cursor and the loader's effects *)

(** The notices the loader prints, with the fields it interpolates. *)
Inductive notice : Type :=
  | InfoCreatedExtra (table : string) (cols : list string)
  | InfoDroppingExtra (table : string) (cols : list string)
  | NoticeSkip (name path : string)
  | NoticeLoad (name path : string)
  | NoticeOk (name : string) (nrows : nat)
  | NoticeDone.

(** What the loader does to the outside, in the order it does it. *)
Inductive event : Type :=
  | Execute (sql : string)
  | ExecuteMany (sql : string) (params : list (list value))
  | Commit
  | Print (n : notice).

(** The part of [mysql.connector] the loader calls.  A call that raises
    gives [None].  [fetchall] reads the result set of the last statement;
    for [SHOW COLUMNS] each of its rows starts with the column name. *)
Class Cursor (C : Type) : Type := {
  execute : string → C → option C;
  fetchall : C → list (list string);
  executemany : string → list (list value) → C → option C;
  commit : C → option C
}.

Record World (C : Type) : Type := mkWorld {
  cursor : C;
  trace : list event
}.
Arguments mkWorld {C} _ _.
Arguments cursor {C} _.
Arguments trace {C} _.

(** Computations of the loader: they read and update the cursor, record
    their events, and may raise. *)
Definition Py (C A : Type) : Type := World C → option (A * World C).

Definition py_ret {C A} (a : A) : Py C A := λ w, Some (a, w).

Definition py_bind {C A B} (m : Py C A) (k : A → Py C B) : Py C B :=
  λ w, match m w with
       | Some (a, w') => k a w'
       | None => None
       end.

Definition py_lift {C A} (o : option A) : Py C A :=
  λ w, match o with Some a => Some (a, w) | None => None end.

Declare Scope py_scope.
Delimit Scope py_scope with py.
Notation "x <- m ;; k" := (py_bind m (λ x, k))
  (at level 20, m at level 99, k at level 200, only parsing) : py_scope.
Notation "' pat <- m ;; k" := (py_bind m (λ x, match x with pat => k end))
  (at level 20, pat pattern, m at level 99, k at level 200, only parsing) : py_scope.
Notation "m ;; k" := (py_bind m (λ _, k))
  (at level 100, k at level 200, only parsing, right associativity) : py_scope.
Local Open Scope py_scope.

Definition emit {C} (e : event) (w : World C) : World C :=
  mkWorld (cursor w) (trace w ++ [e]).

Definition py_print {C} (n : notice) : Py C unit :=
  λ w, Some ((), emit (Print n) w).

Definition py_execute `{Cursor C} (sql : string) : Py C unit :=
  λ w, c ← execute sql (cursor w); Some ((), mkWorld c (trace w ++ [Execute sql])).

Definition py_fetchall `{Cursor C} : Py C (list (list string)) :=
  λ w, Some (fetchall (cursor w), w).

Definition py_executemany `{Cursor C} (sql : string) (params : list (list value)) : Py C unit :=
  λ w, c ← executemany sql params (cursor w);
       Some ((), mkWorld c (trace w ++ [ExecuteMany sql params])).

Definition py_commit `{Cursor C} : Py C unit :=
  λ w, c ← commit (cursor w); Some ((), mkWorld c (trace w ++ [Commit])).

(** [for x in xs: body(x)]. *)
Fixpoint for_each {C A} (body : A → Py C unit) (xs : list A) : Py C unit :=
  match xs with
  | [] => py_ret ()
  | x :: xs' => body x ;; for_each body xs'
  end.

(** [s.replace(old, new)] for a one-character [old]. *)
Fixpoint str_replace (old : ascii) (new : string) (s : string) : string :=
  match s with
  | EmptyString => EmptyString
  | String a s' =>
      (if bool_decide (a = old) then new else String a EmptyString)
        +:+ str_replace old new s'
  end.

Definition backtick : ascii := "`"%char.

Fixpoint no_backtick (s : string) : bool :=
  match s with
  | EmptyString => true
  | String a s' => negb (bool_decide (a = backtick)) && no_backtick s'
  end.

Section Loader.
Context `{PyFloatRepr} `{Cursor C}.

Definition get_table_columns (table : string) : Py C (list string) :=
  py_execute ("SHOW COLUMNS FROM `" +:+ table +:+ "`;") ;;
  fetched <- py_fetchall ;;
  (* row[0] of an empty row is an IndexError *)
  py_lift (mapM head fetched).

Definition ensure_extra_columns_as_null (table : string) (extra_cols : list string)
  : Py C unit :=
  if bool_decide (extra_cols = []) then py_ret ()
  else
    for_each (λ col,
      let safe := str_replace backtick "``" col in
      py_execute ("ALTER TABLE `" +:+ table +:+ "` ADD COLUMN `" +:+ safe +:+ "` TEXT NULL;"))
      extra_cols ;;
    py_print (InfoCreatedExtra table extra_cols).

(** [for c in cs: df[c] = None]. *)
Definition set_all_none (cs : list string) (df : DataFrame) : DataFrame :=
  foldl (λ df c, setitem_const c VNone df) df cs.

Definition align_df_to_table (table : string) (df : DataFrame) (add_extras_as_null : bool)
  : Py C (DataFrame * list string) :=
  table_cols <- get_table_columns table ;;
  let extra := filter (λ c, c ∉ table_cols) (columns df) in
  let missing := filter (λ c, c ∉ columns df) table_cols in
  '(df, table_cols, missing) <-
    (if bool_decide (extra ≠ []) && add_extras_as_null then
       ensure_extra_columns_as_null table extra ;;
       table_cols <- get_table_columns table ;;
       let df := set_all_none extra df in
       let missing := filter (λ c, c ∉ columns df) table_cols in
       py_ret (df, table_cols, missing)
     else if bool_decide (extra ≠ []) then
       py_print (InfoDroppingExtra table extra) ;;
       df <- py_lift (getitem_cols (filter (λ c, c ∈ table_cols) (columns df)) df) ;;
       py_ret (df, table_cols, missing)
     else py_ret (df, table_cols, missing)) ;;
  let df := set_all_none missing df in
  df <- py_lift (getitem_cols table_cols df) ;;
  py_ret (df, table_cols).

Definition load_table (table : string) (df : DataFrame) (add_extras_as_null : bool)
  : Py C unit :=
  let df := normalise_nulls df in
  let df := to_bool_int df (dict_get table BOOL_COLS []) in
  '(df, cols) <- align_df_to_table table df add_extras_as_null ;;
  let placeholders := String.concat "," (replicate (length cols) "%s") in
  let sql := "INSERT IGNORE INTO `" +:+ table +:+ "` ("
             +:+ String.concat ", " ((λ c, "`" +:+ c +:+ "`") <$> cols)
             +:+ ") VALUES (" +:+ placeholders +:+ ")" in
  parts <- py_lift (chunked df 5000) ;;
  for_each (λ part, py_executemany sql (to_numpy part)) parts.

End Loader.

(** ** The command line *)

(** The [argparse] declarations of [main], and [parse_args] as far as it is
    decided by them: the namespace starts from the defaults, every option
    that occurs has its action called with the argument string matched to it,
    in the order of the command line, and an option that is required and did
    not occur is an error.  [None] is the [SystemExit] of a rejected command
    line (or of [--help]). *)
Inductive action : Type := Store | StoreTrue | Help.

#[global] Instance action_eq_dec : EqDecision action.
Proof. solve_decision. Defined.

Record argument : Type := mkArgument {
  option_strings : list string;
  arg_action : action;
  arg_type_int : bool;
  arg_default : value;
  arg_required : bool
}.

Fixpoint lstrip_dashes (s : string) : string :=
  match s with
  | String "-" s' => lstrip_dashes s'
  | _ => s
  end.

(** The attribute name [argparse] derives from the first long option. *)
Definition dest (a : argument) : string :=
  let long := default "" (head (filter (λ o, String.prefix "--" o = true) (option_strings a))) in
  str_replace "-" "_" (lstrip_dashes long).

Definition Namespace : Type := list (string * value).

(** [setattr(namespace, name, v)]. *)
Fixpoint ns_set (name : string) (v : value) (ns : Namespace) : Namespace :=
  match ns with
  | [] => [(name, v)]
  | (k, x) :: ns' => if bool_decide (k = name) then (k, v) :: ns' else (k, x) :: ns_set name v ns'
  end.

(** The part of [parse_args] that is the library's own and does not depend
    on what [main] declares beyond the option strings and whether an option
    takes an argument: [int], the [type] of [--port], and the reading of the
    tokens.  [match_options] gives the options that occur on a command line,
    in order, each as the declared option string it stands for (an
    abbreviation is resolved) with the argument string matched to it, if any;
    [None] when the library refuses the command line while reading it.  What
    is proved below holds whatever these two are. *)
Class ArgParse : Type := {
  py_int : string → option Z;
  match_options : list argument → list string → option (list (string * option string))
}.

(** [parser._option_string_actions[option_string]]. *)
Definition option_string_action (specs : list argument) (o : string) : option argument :=
  head (filter (λ a, o ∈ option_strings a) specs).

Section ParseArgs.
Context {argparse : ArgParse}.

(** What an argument's action does to the namespace when the option occurs
    with the argument string [v] (if any). *)
Definition take_action (a : argument) (v : option string) (ns : Namespace)
  : option Namespace :=
  match arg_action a with
  | StoreTrue =>
      (* _StoreTrueAction: setattr(namespace, dest, True) *)
      match v with
      | Some _ => None
      | None => Some (ns_set (dest a) (VBool true) ns)
      end
  | Store =>
      s ← v;
      x ← (if arg_type_int a then VInt <$> py_int s else Some (VStr s));
      Some (ns_set (dest a) x ns)
  | Help => None
  end.

(** The actions of the options found, taken in order; [seen] collects the
    attributes of the options that occurred.  An option string that is not
    declared is an unrecognized argument. *)
Fixpoint take_actions (specs : list argument) (found : list (string * option string))
    (seen : list string) (ns : Namespace) : option (Namespace * list string) :=
  match found with
  | [] => Some (ns, seen)
  | (o, v) :: found' =>
      a ← option_string_action specs o;
      ns' ← take_action a v ns;
      take_actions specs found' (dest a :: seen) ns'
  end.

Definition parse_args (specs : list argument) (argv : list string) : option Namespace :=
  let defaults := (λ a, (dest a, arg_default a)) <$> filter (λ a, arg_action a ≠ Help) specs in
  found ← match_options specs argv;
  '(ns, seen) ← take_actions specs found [] defaults;
  if bool_decide (Forall (λ a, arg_required a = true → dest a ∈ seen) specs)
  then Some ns else None.

End ParseArgs.

(** The parser [main] builds. *)
Definition ap : list argument := [
  mkArgument ["-h"; "--help"] Help false VNone false;
  mkArgument ["--base-dir"] Store false (VStr "./ag_data/clean") false;
  mkArgument ["--host"] Store false (VStr "127.0.0.1") false;
  mkArgument ["--port"] Store true (VInt 3306) false;
  mkArgument ["--user"] Store false VNone true;
  mkArgument ["--password"] Store false VNone true;
  mkArgument ["--database"] Store false VNone true;
  mkArgument ["--add-extras-as-null"] StoreTrue false (VBool true) false
].

(** [bool(v)]. *)
Definition py_truth (v : value) : bool :=
  match v with
  | VNone => false
  | VBool b => b
  | VInt z => negb (Z.eqb z 0)
  | VFloat f => match f with S754_zero _ => false | _ => true end
  | VStr s => negb (bool_decide (s = ""))
  end.

(** ** The run over the load order *)

(** The CSV files under the base directory: a path that exists maps to the
    frame [pd.read_csv] returns for it. *)
Definition FileSystem : Type := string → option DataFrame.

(** [os.path.join(a, b)] for a relative [b], POSIX flavour. *)
Definition os_path_join (a b : string) : string :=
  if bool_decide (a = "") then b
  else if bool_decide (String.get (String.length a - 1) a = Some "/"%char) then a +:+ b
  else a +:+ "/" +:+ b.

Section Run.
Context `{PyFloatRepr} `{Cursor C} {argparse : ArgParse}.

(** The body of the loop [for name in LOAD_ORDER]. *)
Definition load_one (fs : FileSystem) (base_dir : string) (add_extras_as_null : bool)
    (name : string) : Py C unit :=
  let path := os_path_join base_dir (name +:+ ".csv") in
  match fs path with
  | None => py_print (NoticeSkip name path) (* continue *)
  | Some df =>
      py_print (NoticeLoad name path) ;;
      load_table name df add_extras_as_null ;;
      py_commit ;;
      py_print (NoticeOk name (len df))
  end.

(** [main] from the parsing of the command line on.  The connection and
    the DDL statements that create the tables come before the loop and leave
    the cursor the run starts from. *)
Definition main (argv : list string) (fs : FileSystem) : Py C unit :=
  args <- py_lift (parse_args ap argv) ;;
  base_dir <- py_lift (match dict_get "base_dir" args VNone with
                       | VStr s => Some s
                       | _ => None
                       end) ;;
  let add_extras_as_null := py_truth (dict_get "add_extras_as_null" args VNone) in
  for_each (load_one fs base_dir add_extras_as_null) LOAD_ORDER ;;
  py_print NoticeDone.

End Run.

Local Close Scope py_scope.

(** ** An in-memory database behind the cursor *)

(** Modelled from the spec: the schema authority and the persistence sink
    behind the cursor, which are MySQL and not part of this program.  The
    authority lists the columns of a table and adds a nullable free-text
    column to it; the sink takes a table, a column list and a batch of rows
    and silently skips every row whose primary key already exists.

    A table is its ordered column names and its stored rows, one cell per
    column.  Every table of the loader's DDL declares its first column as
    the primary key, so the key of a stored row is its first cell. *)
Record Table : Type := mkTable {
  tcols : list string;
  trows : list (list value)
}.

Record MemDB : Type := mkMemDB {
  tables : gmap string Table;
  result_set : list (list string)
}.

Fixpoint strip_prefix (p s : string) : option string :=
  match p, s with
  | EmptyString, _ => Some s
  | String a p', String b s' => if bool_decide (a = b) then strip_prefix p' s' else None
  | String _ _, EmptyString => None
  end.

(** Reads a back-quoted identifier whose opening quote has been consumed:
    a doubled back-quote stands for one, a single one closes the
    identifier.  Gives the identifier and the text after the closing quote. *)
Fixpoint read_quoted (s : string) : option (string * string) :=
  match s with
  | EmptyString => None
  | String a s' =>
      if bool_decide (a = backtick) then
        match s' with
        | String b s'' =>
            if bool_decide (b = backtick)
            then '(n, rest) ← read_quoted s''; Some (String backtick n, rest)
            else Some (EmptyString, s')
        | EmptyString => Some (EmptyString, s')
        end
      else '(n, rest) ← read_quoted s'; Some (String a n, rest)
  end.

Definition quote_ident (c : string) : string :=
  "`" +:+ str_replace backtick "``" c +:+ "`".

(** One row of an [INSERT IGNORE]: dropped when its key is already stored. *)
Definition insert_ignore (stored : list (list value)) (r : list value)
  : list (list value) :=
  if bool_decide (head r ∈ head <$> stored) then stored else stored ++ [r].

(** The result set of [SHOW COLUMNS]: one row per column, name first. *)
Definition show_rows (cols : list string) : list (list string) :=
  (λ c, [c; "text"; "YES"; ""; ""; ""]) <$> cols.

(** The table after [ADD COLUMN c TEXT NULL]. *)
Definition add_text_column (c : string) (tb : Table) : Table :=
  mkTable (tcols tb ++ [c]) ((λ r, r ++ [VNone]) <$> trows tb).

(** The table after an [INSERT IGNORE] of the rows [params], in order. *)
Definition insert_rows (params : list (list value)) (tb : Table) : Table :=
  mkTable (tcols tb) (foldl insert_ignore (trows tb) params).

(** [SHOW COLUMNS FROM `t`;] *)
Definition db_show_columns (sql : string) (db : MemDB) : option MemDB :=
  s ← strip_prefix "SHOW COLUMNS FROM `" sql;
  '(t, rest) ← read_quoted s;
  guard (rest = ";");;
  tb ← tables db !! t;
  Some (mkMemDB (tables db) (show_rows (tcols tb))).

(** [ALTER TABLE `t` ADD COLUMN `c` TEXT NULL;]: the column goes last and
    every stored row gets a NULL there.  A name that matches an existing
    column, letter case aside, is rejected. *)
Definition db_add_column (sql : string) (db : MemDB) : option MemDB :=
  s ← strip_prefix "ALTER TABLE `" sql;
  '(t, rest) ← read_quoted s;
  s ← strip_prefix " ADD COLUMN `" rest;
  '(c, rest) ← read_quoted s;
  guard (rest = " TEXT NULL;");;
  tb ← tables db !! t;
  guard (lower c ∉ lower <$> tcols tb);;
  Some (mkMemDB (<[t := add_text_column c tb]> (tables db)) []).

(** The text of an [INSERT IGNORE] that names every column of the table, in
    table order, with one placeholder per column. *)
Definition insert_ignore_sql (t : string) (cols : list string) : string :=
  "INSERT IGNORE INTO " +:+ quote_ident t +:+ " ("
    +:+ String.concat ", " (quote_ident <$> cols)
    +:+ ") VALUES (" +:+ String.concat "," (replicate (length cols) "%s") +:+ ")".

(** [executemany] of an [INSERT IGNORE] naming all columns of the table:
    the rows are taken in order; a row of the wrong width is an error. *)
Definition db_insert_ignore (sql : string) (params : list (list value)) (db : MemDB)
  : option MemDB :=
  s ← strip_prefix "INSERT IGNORE INTO `" sql;
  '(t, _) ← read_quoted s;
  tb ← tables db !! t;
  guard (sql = insert_ignore_sql t (tcols tb));;
  guard (Forall (λ r, length r = length (tcols tb)) params);;
  Some (mkMemDB (<[t := insert_rows params tb]> (tables db)) []).

Definition db_execute (sql : string) (db : MemDB) : option MemDB :=
  match db_show_columns sql db with
  | Some db' => Some db'
  | None => db_add_column sql db
  end.

#[global] Instance MemDB_cursor : Cursor MemDB := {|
  execute := db_execute;
  fetchall := result_set;
  executemany := db_insert_ignore;
  commit := Some
|}.

(** A float [repr] to run examples with; the examples hold no finite
    non-zero float. *)
Definition demo_float_repr : PyFloatRepr := λ _ _ _, "1.5".

(** A reading of the tokens to run examples with.  It knows the plain forms
    only, [--name value] and [--name=value] with the option string written
    out or abbreviated to an unambiguous prefix, takes no value that starts
    with a dash, and reads an integer as an optionally signed run of the
    digits 0 to 9.  [argparse] accepts more than that. *)
Fixpoint split_eq (tok : string) : string * option string :=
  match tok with
  | EmptyString => (EmptyString, None)
  | String "=" s' => (EmptyString, Some s')
  | String a s' => let '(n, v) := split_eq s' in (String a n, v)
  end.

Definition digit_of (a : ascii) : option Z :=
  let n := N_of_ascii a in
  if ((48 <=? n) && (n <=? 57))%N then Some (Z.of_N (n - 48)) else None.

Fixpoint digits_value (acc : Z) (s : string) : option Z :=
  match s with
  | EmptyString => Some acc
  | String a s' => d ← digit_of a; digits_value (10 * acc + d)%Z s'
  end.

Definition plain_int (s : string) : option Z :=
  match s with
  | String "-" (String a s') => Z.opp <$> digits_value 0 (String a s')
  | String "+" (String a s') => digits_value 0 (String a s')
  | String a s' => digits_value 0 (String a s')
  | EmptyString => None
  end.

(** The declared option string a token names: itself when it is declared,
    otherwise the only long option it is a prefix of. *)
Definition plain_resolve (specs : list argument) (name : string) : option string :=
  let declared := specs ≫= option_strings in
  if bool_decide (name ∈ declared) then Some name
  else if String.prefix "--" name then
    match filter (λ o, String.prefix name o = true) declared with
    | [o] => Some o
    | _ => None
    end
  else None.

Fixpoint plain_options (specs : list argument) (argv : list string)
  : option (list (string * option string)) :=
  match argv with
  | [] => Some []
  | tok :: rest =>
      let '(name, explicit) := split_eq tok in
      o ← plain_resolve specs name;
      a ← option_string_action specs o;
      match arg_action a, explicit, rest with
      | Store, None, v :: rest' =>
          if String.prefix "-" v then None
          else found ← plain_options specs rest'; Some ((o, Some v) :: found)
      | Store, None, [] => None
      | _, _, _ => found ← plain_options specs rest; Some ((o, explicit) :: found)
      end
  end.

Definition demo_argparse : ArgParse :=
  {| py_int := plain_int; match_options := plain_options |}.

(** ** Notions the statements below are phrased with *)

(** Every row has one cell per label. *)
Definition df_rect (df : DataFrame) : Prop :=
  Forall (λ r, length r = length (columns df)) (rows df).

(** The null-like raw forms, as the specification lists them. *)
Definition null_like : list value :=
  [VFloat np_nan; VFloat np_inf; VFloat np_neg_inf;
   VStr "nan"; VStr "NaN"; VStr "None"; VStr ""].

(** The statements of the loader, as texts. *)
Definition show_columns_sql (table : string) : string :=
  "SHOW COLUMNS FROM `" +:+ table +:+ "`;".

Definition add_column_sql (table col : string) : string :=
  "ALTER TABLE `" +:+ table +:+ "` ADD COLUMN `"
    +:+ str_replace backtick "``" col +:+ "` TEXT NULL;".

(** The insert statement [load_table] builds for a column list. *)
Definition insert_sql (table : string) (cols : list string) : string :=
  "INSERT IGNORE INTO `" +:+ table +:+ "` ("
    +:+ String.concat ", " ((λ c, "`" +:+ c +:+ "`") <$> cols)
    +:+ ") VALUES (" +:+ String.concat "," (replicate (length cols) "%s") +:+ ")".

(** The frame [load_table] aligns: nulls normalised, then booleans. *)
Definition prepared `{PyFloatRepr} (table : string) (df : DataFrame) : DataFrame :=
  to_bool_int (normalise_nulls df) (dict_get table BOOL_COLS []).

Section Statements.
Context `{Cursor C}.

(** Statements sent one after the other. *)
Fixpoint execute_all (sqls : list string) (c : C) : option C :=
  match sqls with
  | [] => Some c
  | sql :: sqls' => c' ← execute sql c; execute_all sqls' c'
  end.

(** Batches sent one after the other with the same statement. *)
Fixpoint executemany_all (sql : string) (batches : list (list (list value))) (c : C)
  : option C :=
  match batches with
  | [] => Some c
  | b :: batches' => c' ← executemany sql b c; executemany_all sql batches' c'
  end.

(** The three ways through [align_df_to_table], with the frame each hands
    to the final reordering. *)
Inductive align_path (table : string) (df : DataFrame) (add_extras_as_null : bool)
    (w : World C) (df' : DataFrame) (cols' : list string) (w' : World C) : Prop :=
  | path_extend table_cols w1 w2 :
      get_table_columns table w = Some (table_cols, w1) →
      let extra := filter (λ c, c ∉ table_cols) (columns df) in
      extra ≠ [] → add_extras_as_null = true →
      ensure_extra_columns_as_null table extra w1 = Some ((), w2) →
      get_table_columns table w2 = Some (cols', w') →
      let df1 := set_all_none extra df in
      getitem_cols cols' (set_all_none (filter (λ c, c ∉ columns df1) cols') df1) = Some df' →
      align_path table df add_extras_as_null w df' cols' w'
  | path_drop w1 dfd :
      get_table_columns table w = Some (cols', w1) →
      let extra := filter (λ c, c ∉ cols') (columns df) in
      extra ≠ [] → add_extras_as_null = false →
      w' = emit (Print (InfoDroppingExtra table extra)) w1 →
      getitem_cols (filter (λ c, c ∈ cols') (columns df)) df = Some dfd →
      getitem_cols cols' (set_all_none (filter (λ c, c ∉ columns df) cols') dfd) = Some df' →
      align_path table df add_extras_as_null w df' cols' w'
  | path_plain :
      get_table_columns table w = Some (cols', w') →
      filter (λ c, c ∉ cols') (columns df) = [] →
      getitem_cols cols' (set_all_none (filter (λ c, c ∉ columns df) cols') df) = Some df' →
      align_path table df add_extras_as_null w df' cols' w'.

End Statements.

(** The namespace holds [add_extras_as_null = True]. *)
Definition flag_on (ns : Namespace) : Prop :=
  dict_get "add_extras_as_null" ns VNone = VBool true.

(** A computation that never prints the dropping-extras notice. *)
Definition not_dropping (e : event) : Prop :=
  ∀ t cs, e ≠ Print (InfoDroppingExtra t cs).

Definition never_drops {C A} (m : Py C A) : Prop :=
  ∀ w a w', m w = Some (a, w') →
    ∃ evs, trace w' = trace w ++ evs ∧ Forall not_dropping evs.

(** Text that does not begin with a back-quote. *)
Definition not_quote_first (s : string) : Prop :=
  match s with
  | String a _ => a ≠ backtick
  | EmptyString => True
  end.

(** The scenario of the specification: a [products] table with columns
    [id] and [name], and a file that also has [category_name]. *)
Definition demo_db : MemDB :=
  mkMemDB {[ "products" := mkTable ["id"; "name"] [] ]} [].

Definition demo_df : DataFrame :=
  mkDF ["id"; "name"; "category_name"]
       [[VInt 1; VStr "frame"; VStr "wall art"]; [VInt 2; VStr ""; VStr "prints"]].

Definition demo_world : World MemDB := mkWorld demo_db [].

(** ** Notions for the further properties *)

(** Text made of decimal digits and minus signs only. *)
Fixpoint digits_only (s : string) : bool :=
  match s with
  | EmptyString => true
  | String a s' =>
      (bool_decide (a = "-"%char)
       || (48 <=? N_of_ascii a)%N && (N_of_ascii a <=? 57)%N) && digits_only s'
  end.

(** The number of back-quotes in a text. *)
Fixpoint count_backticks (s : string) : nat :=
  match s with
  | EmptyString => 0
  | String a s' => (if bool_decide (a = backtick) then 1 else 0) + count_backticks s'
  end.

(** What [load_table] does to the outside: statements, batches and the
    two notices of the alignment. *)
Definition loader_event (e : event) : bool :=
  match e with
  | Execute _ | ExecuteMany _ _ => true
  | Print (InfoCreatedExtra _ _) | Print (InfoDroppingExtra _ _) => true
  | _ => false
  end.

Definition is_executemany (e : event) : bool :=
  match e with ExecuteMany _ _ => true | _ => false end.

(** What the loop of [main] does for one table of the load order: a skip
    notice when its file is absent; otherwise the load notice, then
    statements, batches and alignment notices only, one [executemany] per
    5000 rows of the file or part of them, then one commit and the closing
    notice with the row count of the file. *)
Definition table_segment (fs : FileSystem) (base_dir name : string) (seg : list event)
  : Prop :=
  let path := os_path_join base_dir (name +:+ ".csv") in
  match fs path with
  | None => seg = [Print (NoticeSkip name path)]
  | Some df =>
      ∃ evs, seg = Print (NoticeLoad name path) :: evs
                     ++ [Commit; Print (NoticeOk name (len df))]
             ∧ Forall (λ e, loader_event e = true) evs
             ∧ length (filter is_executemany evs) = (len df + 4999) `div` 5000
  end.

(** The value an argument's action stores has the argument's type. *)
Definition stored_kind (a : argument) (x : value) : Prop :=
  match arg_action a with
  | StoreTrue => x = VBool true
  | Store => if arg_type_int a then ∃ z, x = VInt z else ∃ s, x = VStr s
  | Help => False
  end.

(** Every attribute holds its default or a value its action stored, and
    an attribute whose option occurred holds a stored value. *)
Definition ns_typed (ns : Namespace) (seen : list string) : Prop :=
  ∀ a, a ∈ ap → arg_action a ≠ Help →
    (dict_get (dest a) ns VNone = arg_default a ∨ stored_kind a (dict_get (dest a) ns VNone))
    ∧ (dest a ∈ seen → stored_kind a (dict_get (dest a) ns VNone)).

(** * Properties *)

(** ** Column positions and cells *)

Lemma col_index_Some c cols i :
  col_index c cols = Some i ↔ cols !! i = Some c ∧ ∀ j, j < i → cols !! j ≠ Some c.
Proof.
  unfold col_index. rewrite fmap_Some. split.
  - intros [[i' x] [Hf ->]]. apply list_find_Some in Hf as (Hl & -> & Hm).
    split; [done|]. intros j Hj Hc. by apply (Hm j c).
  - intros [Hl Hm]. exists (i, c). split; [|done].
    apply list_find_Some. split_and!; [done..|].
    intros j y Hy Hj ->. by apply (Hm j).
Qed.

Lemma col_index_None c cols : col_index c cols = None ↔ c ∉ cols.
Proof.
  unfold col_index. rewrite fmap_None, list_find_None, Forall_forall.
  split; [intros Hn Hc; by apply (Hn c)|intros Hn x Hx ->; done].
Qed.

Lemma col_index_is_Some c cols : is_Some (col_index c cols) ↔ c ∈ cols.
Proof.
  rewrite <-not_eq_None_Some, col_index_None. split; [apply dec_stable|auto].
Qed.

Lemma col_index_lt c cols i : col_index c cols = Some i → i < length cols.
Proof. intros [Hl _]%col_index_Some. by eapply lookup_lt_Some. Qed.

Lemma col_index_inj c c' cols i :
  col_index c cols = Some i → col_index c' cols = Some i → c = c'.
Proof. intros [H1 _]%col_index_Some [H2 _]%col_index_Some. congruence. Qed.

Lemma col_index_app_l c cols more :
  c ∈ cols → col_index c (cols ++ more) = col_index c cols.
Proof.
  intros [i Hi]%col_index_is_Some. rewrite Hi.
  apply col_index_Some in Hi as [Hl Hm]. apply col_index_Some. split.
  - by apply lookup_app_l_Some.
  - intros j Hj. rewrite lookup_app_l; [by apply Hm|].
    apply lookup_lt_Some in Hl. lia.
Qed.

Lemma col_index_app_new c cols :
  c ∉ cols → col_index c (cols ++ [c]) = Some (length cols).
Proof.
  intros Hn. apply col_index_Some. split.
  - by rewrite lookup_app_r, Nat.sub_diag.
  - intros j Hj. rewrite lookup_app_l by done.
    intros Hc. apply Hn. by eapply list_elem_of_lookup_2.
Qed.

Lemma col_index_app_other c c' cols :
  c ≠ c' → col_index c' (cols ++ [c]) = col_index c' cols.
Proof.
  intros Hne. destruct (decide (c' ∈ cols)) as [Hin|Hn].
  - by apply col_index_app_l.
  - apply col_index_None in Hn as Hn'. rewrite Hn'. apply col_index_None.
    rewrite elem_of_app, list_elem_of_singleton. naive_solver.
Qed.

(** ** Frame operations: labels, row count, rectangularity *)

Lemma df_wf_rect df : df_wf df → df_rect df.
Proof. by intros [_ ?]. Qed.

Lemma columns_setitem_const c v df :
  columns (setitem_const c v df)
  = if bool_decide (c ∈ columns df) then columns df else columns df ++ [c].
Proof.
  unfold setitem_const. destruct (col_index c (columns df)) as [i|] eqn:Hi; simpl.
  - rewrite bool_decide_eq_true_2; [done|]. apply col_index_is_Some. eauto.
  - rewrite bool_decide_eq_false_2; [done|]. by apply col_index_None.
Qed.

Lemma len_setitem_const c v df : len (setitem_const c v df) = len df.
Proof.
  unfold setitem_const, len.
  destruct (col_index c (columns df)); simpl; by rewrite length_fmap.
Qed.

Lemma rect_setitem_const c v df : df_rect df → df_rect (setitem_const c v df).
Proof.
  unfold df_rect, setitem_const. intros Hr.
  destruct (col_index c (columns df)); simpl; apply Forall_fmap;
    (eapply Forall_impl; [exact Hr|]); simpl; intros r Hl.
  - by rewrite length_insert.
  - rewrite !length_app, Hl. done.
Qed.

Lemma columns_set_all_none_incl cs df c :
  c ∈ columns (set_all_none cs df) ↔ c ∈ columns df ∨ c ∈ cs.
Proof.
  unfold set_all_none. revert df. induction cs as [|c0 cs IH]; intros df; simpl.
  - rewrite elem_of_nil. naive_solver.
  - rewrite IH, columns_setitem_const, elem_of_cons. case_bool_decide.
    + naive_solver.
    + rewrite elem_of_app, list_elem_of_singleton. naive_solver.
Qed.

Lemma columns_set_all_none_present cs df :
  Forall (λ c, c ∈ columns df) cs → columns (set_all_none cs df) = columns df.
Proof.
  unfold set_all_none. revert df. induction cs as [|c0 cs IH]; intros df Hcs; [done|].
  apply Forall_cons in Hcs as [Hc Hcs]. simpl.
  assert (columns (setitem_const c0 VNone df) = columns df) as Heq.
  { rewrite columns_setitem_const. by rewrite bool_decide_eq_true_2. }
  rewrite IH; [done|]. by rewrite Heq.
Qed.

Lemma len_set_all_none cs df : len (set_all_none cs df) = len df.
Proof.
  unfold set_all_none. revert df. induction cs as [|c0 cs IH]; intros df; [done|].
  simpl. by rewrite IH, len_setitem_const.
Qed.

Lemma rect_set_all_none cs df : df_rect df → df_rect (set_all_none cs df).
Proof.
  unfold set_all_none. revert df. induction cs as [|c0 cs IH]; intros df Hr; [done|].
  simpl. by apply IH, rect_setitem_const.
Qed.

Lemma getitem_cols_Some_inv labels df df' :
  getitem_cols labels df = Some df' →
  columns df' = labels ∧ len df' = len df
  ∧ Forall (λ r, length r = length labels) (rows df').
Proof.
  unfold getitem_cols. intros Hg.
  destruct (mapM _ labels) as [idxs|] eqn:Hidx; [|done]. simpl in Hg.
  destruct (mapM _ (rows df)) as [rws|] eqn:Hrws; [|done]. simplify_eq/=.
  split; [done|]. split.
  - unfold len; simpl. symmetry. by eapply length_mapM.
  - apply mapM_Some_1 in Hrws. apply length_mapM in Hidx.
    induction Hrws as [|r r' ?? Hr ? IH]; constructor; [|done].
    apply length_mapM in Hr. lia.
Qed.

Lemma getitem_cols_is_Some labels df :
  df_rect df → Forall (λ c, c ∈ columns df) labels →
  is_Some (getitem_cols labels df).
Proof.
  intros Hr Hl. unfold getitem_cols.
  assert (is_Some (mapM (λ c, col_index c (columns df)) labels)) as [idxs Hidx].
  { apply mapM_is_Some. eapply Forall_impl; [exact Hl|].
    simpl. intros c Hc. by apply col_index_is_Some. }
  rewrite Hidx. simpl.
  assert (is_Some (mapM (λ r : list value, mapM (λ i, r !! i) idxs) (rows df)))
    as [rws Hrws]; [|by rewrite Hrws].
  apply mapM_is_Some. eapply Forall_impl; [exact Hr|]. simpl. intros r Hlen.
  apply mapM_is_Some. apply mapM_Some_1 in Hidx.
  clear -Hidx Hlen. induction Hidx as [|c i ?? Hc ? IH]; constructor; [|done].
  simpl. apply lookup_lt_is_Some. rewrite Hlen. by eapply col_index_lt.
Qed.

(** ** Cells under the frame operations *)

Lemma cell_Some_lt df j c v : cell df j c = Some v → j < len df.
Proof.
  unfold cell, len. intros Hc.
  destruct (col_index c (columns df)); [|done]. simpl in Hc.
  destruct (rows df !! j) eqn:Hr; [|done]. by eapply lookup_lt_Some.
Qed.

Lemma cell_is_Some df j c :
  df_rect df → c ∈ columns df → j < len df → is_Some (cell df j c).
Proof.
  unfold cell, len, df_rect. intros Hr [i Hi]%col_index_is_Some Hj.
  rewrite Hi. simpl.
  destruct (lookup_lt_is_Some_2 _ _ Hj) as [r Hrj]. rewrite Hrj. simpl.
  apply lookup_lt_is_Some.
  rewrite (Forall_lookup_1 _ _ _ _ Hr Hrj). by eapply col_index_lt.
Qed.

Lemma cell_absent df j c : c ∉ columns df → cell df j c = None.
Proof. intros Hn%col_index_None. unfold cell. by rewrite Hn. Qed.

Lemma cell_df_map f df j c : cell (df_map f df) j c = f <$> cell df j c.
Proof.
  unfold cell, df_map. simpl.
  destruct (col_index c (columns df)) as [i|]; [|done]. simpl.
  rewrite list_lookup_fmap. destruct (rows df !! j) as [r|]; [|done]. simpl.
  by rewrite list_lookup_fmap.
Qed.

Lemma cell_setitem_map_eq c f df j :
  cell (setitem_map c f df) j c = f <$> cell df j c.
Proof.
  unfold cell, setitem_map.
  destruct (col_index c (columns df)) as [i|] eqn:Hi; simpl; rewrite Hi; [|done].
  simpl. rewrite list_lookup_fmap. destruct (rows df !! j) as [r|]; [|done]. simpl.
  by rewrite list_lookup_alter_eq.
Qed.

Lemma cell_setitem_map_ne c c' f df j :
  c ≠ c' → cell (setitem_map c f df) j c' = cell df j c'.
Proof.
  intros Hne. unfold cell, setitem_map.
  destruct (col_index c (columns df)) as [i|] eqn:Hi; simpl; [|done].
  destruct (col_index c' (columns df)) as [i'|] eqn:Hi'; [|done]. simpl.
  rewrite list_lookup_fmap. destruct (rows df !! j) as [r|]; [|done]. simpl.
  apply list_lookup_alter_ne. intros ->. apply Hne. by eapply col_index_inj.
Qed.

Lemma columns_setitem_map c f df : columns (setitem_map c f df) = columns df.
Proof. unfold setitem_map. by destruct (col_index c (columns df)). Qed.

Lemma len_setitem_map c f df : len (setitem_map c f df) = len df.
Proof.
  unfold setitem_map, len. destruct (col_index c (columns df)); [|done].
  simpl. by rewrite length_fmap.
Qed.

Lemma rect_setitem_map c f df : df_rect df → df_rect (setitem_map c f df).
Proof.
  unfold df_rect, setitem_map. intros Hr.
  destruct (col_index c (columns df)); [|done]. simpl.
  apply Forall_fmap. eapply Forall_impl; [exact Hr|]. simpl. intros r Hl.
  by rewrite length_alter.
Qed.

Lemma cell_setitem_const_eq c v df j :
  df_rect df → j < len df → cell (setitem_const c v df) j c = Some v.
Proof.
  unfold cell, setitem_const, len, df_rect. intros Hr Hj.
  destruct (lookup_lt_is_Some_2 _ _ Hj) as [r Hrj].
  pose proof (Forall_lookup_1 _ _ _ _ Hr Hrj) as Hlen. simpl in Hlen.
  destruct (col_index c (columns df)) as [i|] eqn:Hi; simpl.
  - rewrite Hi. simpl. rewrite list_lookup_fmap, Hrj. simpl.
    apply list_lookup_insert_eq. rewrite Hlen. by eapply col_index_lt.
  - apply col_index_None in Hi. rewrite col_index_app_new by done. simpl.
    rewrite list_lookup_fmap, Hrj. simpl.
    by rewrite lookup_app_r, Hlen, Nat.sub_diag by lia.
Qed.

Lemma cell_setitem_const_ne c c' v df j :
  df_rect df → c ≠ c' → cell (setitem_const c v df) j c' = cell df j c'.
Proof.
  unfold cell, setitem_const, df_rect. intros Hr Hne.
  destruct (col_index c (columns df)) as [i|] eqn:Hi; simpl.
  - destruct (col_index c' (columns df)) as [i'|] eqn:Hi'; [|done]. simpl.
    rewrite list_lookup_fmap. destruct (rows df !! j) as [r|]; [|done]. simpl.
    apply list_lookup_insert_ne. intros ->. apply Hne. by eapply col_index_inj.
  - rewrite col_index_app_other by done.
    destruct (col_index c' (columns df)) as [i'|] eqn:Hi'; [|done]. simpl.
    rewrite list_lookup_fmap. destruct (rows df !! j) as [r|] eqn:Hrj; [|done]. simpl.
    apply lookup_app_l.
    rewrite (Forall_lookup_1 _ _ _ _ Hr Hrj). by eapply col_index_lt.
Qed.

Lemma cell_set_all_none_notin cs df j c :
  df_rect df → c ∉ cs → cell (set_all_none cs df) j c = cell df j c.
Proof.
  unfold set_all_none. revert df. induction cs as [|c0 cs IH]; intros df Hr Hn; [done|].
  apply not_elem_of_cons in Hn as [Hne Hn]. simpl.
  rewrite IH by (done || by apply rect_setitem_const).
  by apply cell_setitem_const_ne.
Qed.

Lemma cell_set_all_none_in cs df j c :
  df_rect df → c ∈ cs → j < len df → cell (set_all_none cs df) j c = Some VNone.
Proof.
  revert df. induction cs as [|c0 cs IH]; intros df Hr Hc Hj.
  { by apply elem_of_nil in Hc. }
  change (set_all_none (c0 :: cs) df) with (set_all_none cs (setitem_const c0 VNone df)).
  destruct (decide (c ∈ cs)) as [Hin|Hn].
  - apply IH; [by apply rect_setitem_const|done|by rewrite len_setitem_const].
  - apply elem_of_cons in Hc as [->|?]; [|done].
    rewrite cell_set_all_none_notin by (done || by apply rect_setitem_const).
    by apply cell_setitem_const_eq.
Qed.

Lemma cell_getitem_cols labels df df' j c :
  getitem_cols labels df = Some df' → c ∈ labels → cell df' j c = cell df j c.
Proof.
  unfold getitem_cols. intros Hg Hc.
  destruct (mapM _ labels) as [idxs|] eqn:Hidx; [|done]. simpl in Hg.
  destruct (mapM _ (rows df)) as [rws|] eqn:Hrws; [|done]. simplify_eq/=.
  unfold cell. simpl.
  apply col_index_is_Some in Hc as [k Hk]. rewrite Hk. simpl.
  apply mapM_Some_1 in Hidx, Hrws.
  apply col_index_Some in Hk as [Hk _].
  destruct (Forall2_lookup_l _ _ _ _ _ Hidx Hk) as (i & Hik & Hi).
  rewrite Hi. simpl.
  destruct (rows df !! j) as [r|] eqn:Hrj.
  - destruct (Forall2_lookup_l _ _ _ _ _ Hrws Hrj) as (r' & Hr'j & Hr').
    rewrite Hr'j. simpl. apply mapM_Some_1 in Hr'.
    destruct (Forall2_lookup_l _ _ _ _ _ Hr' Hik) as (x & Hx & Hrx).
    by rewrite Hx, Hrx.
  - apply Forall2_length in Hrws.
    rewrite (lookup_ge_None_2 rws j); [done|].
    apply lookup_ge_None_1 in Hrj. lia.
Qed.

(** ** Null normalisation *)

Lemma replace_nulls_value_spec v :
  replace_nulls_value v = if bool_decide (v ∈ null_like) then VNone else v.
Proof.
  destruct v as [|b|z|f|s]; try done.
  - destruct f as [[]|[]| |sg m e]; done.
  - simpl. apply (f_equal (λ b : bool, if b then VNone else VStr s)).
    apply bool_decide_ext. unfold null_strings, null_like.
    rewrite !elem_of_cons, !elem_of_nil. naive_solver.
Qed.

Lemma columns_normalise_nulls df : columns (normalise_nulls df) = columns df.
Proof. done. Qed.

Lemma len_normalise_nulls df : len (normalise_nulls df) = len df.
Proof. unfold normalise_nulls, df_map, len. simpl. by rewrite length_fmap. Qed.

Lemma rect_normalise_nulls df : df_rect df → df_rect (normalise_nulls df).
Proof.
  unfold df_rect, normalise_nulls, df_map. simpl. intros Hr.
  apply Forall_fmap. eapply Forall_impl; [exact Hr|]. simpl. intros r Hl.
  by rewrite length_fmap.
Qed.

(** C2. [normalise_nulls] keeps the labels and the row count, turns every
    cell holding one of the null-like raw forms (float NaN, float positive
    or negative infinity, the strings "nan", "NaN", "None" and the empty
    string) into [None], and leaves every other cell as it is. *)
Theorem normalise_nulls_cells df :
  columns (normalise_nulls df) = columns df
  ∧ len (normalise_nulls df) = len df
  ∧ ∀ j c, cell (normalise_nulls df) j c
           = (λ v, if bool_decide (v ∈ null_like) then VNone else v) <$> cell df j c.
Proof.
  split_and!; [done|apply len_normalise_nulls|]. intros j c.
  unfold normalise_nulls. rewrite cell_df_map.
  destruct (cell df j c) as [v|]; [|done]. simpl.
  by rewrite replace_nulls_value_spec.
Qed.

(** ** Boolean normalisation *)

Lemma ascii_lower_idemp a : ascii_lower (ascii_lower a) = ascii_lower a.
Proof. by destruct a as [[] [] [] [] [] [] [] []]. Qed.

Lemma lower_idemp s : lower (lower s) = lower s.
Proof. induction s as [|a s IH]; [done|]. simpl. by rewrite ascii_lower_idemp, IH. Qed.

Section BoolInt.
Context `{PyFloatRepr}.

Lemma bool_int_value_cases v : bool_int_value v = VInt 1 ∨ bool_int_value v = VInt 0.
Proof. unfold bool_int_value. case_bool_decide; auto. Qed.

Lemma bool_int_value_idemp v : bool_int_value (bool_int_value v) = bool_int_value v.
Proof. by destruct (bool_int_value_cases v) as [-> | ->]. Qed.

Lemma columns_to_bool_int df cols : columns (to_bool_int df cols) = columns df.
Proof.
  unfold to_bool_int. revert df. induction cols as [|c cols IH]; intros df; [done|].
  simpl. rewrite IH. case_bool_decide; [apply columns_setitem_map|done].
Qed.

Lemma len_to_bool_int df cols : len (to_bool_int df cols) = len df.
Proof.
  unfold to_bool_int. revert df. induction cols as [|c cols IH]; intros df; [done|].
  simpl. rewrite IH. case_bool_decide; [apply len_setitem_map|done].
Qed.

Lemma rect_to_bool_int df cols : df_rect df → df_rect (to_bool_int df cols).
Proof.
  unfold to_bool_int. revert df. induction cols as [|c cols IH]; intros df Hr; [done|].
  simpl. apply IH. case_bool_decide; [by apply rect_setitem_map|done].
Qed.

Lemma cell_to_bool_int df cols j c :
  cell (to_bool_int df cols) j c
  = (if bool_decide (c ∈ cols) then bool_int_value else id) <$> cell df j c.
Proof.
  unfold to_bool_int. revert df. induction cols as [|c0 cols IH]; intros df.
  { simpl. by destruct (cell df j c). }
  simpl. rewrite IH. clear IH.
  set (step := if bool_decide (c0 ∈ columns df)
               then setitem_map c0 bool_int_value df else df).
  assert (cell step j c
          = (if bool_decide (c = c0) then bool_int_value else id) <$> cell df j c) as ->.
  { subst step. case_bool_decide as Hc0; case_bool_decide as Hc; subst.
    - apply cell_setitem_map_eq.
    - rewrite cell_setitem_map_ne by done. by destruct (cell df j c).
    - by rewrite cell_absent.
    - by destruct (cell df j c). }
  destruct (cell df j c) as [v|]; [|done]. simpl. f_equal.
  rewrite (bool_decide_ext (c ∈ c0 :: cols) (c = c0 ∨ c ∈ cols)) by apply elem_of_cons.
  do 3 case_bool_decide; try done; try naive_solver.
  apply bool_int_value_idemp.
Qed.

(** C3. On a designated boolean column [to_bool_int] replaces every cell by
    the stored true value 1 when the lower-cased text of the cell is one of
    "true", "1", "t", "yes", "y" and by the stored false value 0 otherwise,
    and it leaves the other columns alone.  The result is one of the two
    stored values, depends on the text only up to letter case, and the
    values "Yes", "0", "TRUE", "maybe" become 1, 0, 1, 0. *)
Theorem to_bool_int_spec :
  (∀ df cols j c,
     cell (to_bool_int df cols) j c
     = (if bool_decide (c ∈ cols) then bool_int_value else id) <$> cell df j c)
  ∧ (∀ v, bool_int_value v
          = VInt (if bool_decide (lower (py_str v) ∈ ["true"; "1"; "t"; "yes"; "y"])
                  then 1 else 0))
  ∧ (∀ v, bool_int_value v ∈ [VInt 1; VInt 0])
  ∧ (∀ s, bool_int_value (VStr (lower s)) = bool_int_value (VStr s))
  ∧ bool_int_value <$> [VStr "TRUE"; VStr "true"; VStr "1"; VStr "Y"]
    = [VInt 1; VInt 1; VInt 1; VInt 1]
  ∧ bool_int_value <$> [VStr "Yes"; VStr "0"; VStr "TRUE"; VStr "maybe"]
    = [VInt 1; VInt 0; VInt 1; VInt 0].
Proof.
  split_and!.
  - apply cell_to_bool_int.
  - done.
  - intros v. destruct (bool_int_value_cases v) as [-> | ->]; set_solver.
  - intros s. unfold bool_int_value. simpl. by rewrite lower_idemp.
  - done.
  - done.
Qed.

End BoolInt.

(** ** The shape of an alignment *)

Section Align.
Context `{Cursor C}.

Lemma align_df_to_table_inv table df flag w df' cols' w' :
  align_df_to_table table df flag w = Some ((df', cols'), w') →
  align_path table df flag w df' cols' w'.
Proof.
  unfold align_df_to_table, py_bind at 1.
  destruct (get_table_columns table w) as [[tc w1]|] eqn:Hg; [|done].
  set (extra := filter (λ c, c ∉ tc) (columns df)).
  destruct (decide (extra = [])) as [He|He].
  - rewrite bool_decide_eq_false_2 by (by intros ?). simpl.
    unfold py_bind, py_ret, py_lift.
    destruct (getitem_cols tc _) as [d|] eqn:Hd; [|done].
    intros [= <- <- <-]. by apply path_plain.
  - rewrite bool_decide_eq_true_2 by done. destruct flag; simpl.
    + unfold py_bind at 1 2.
      destruct (ensure_extra_columns_as_null table extra w1) as [[[] w2]|] eqn:Hen; [|done].
      unfold py_bind at 1.
      destruct (get_table_columns table w2) as [[tc2 w3]|] eqn:Hg2; [|done].
      unfold py_ret, py_bind, py_lift.
      destruct (getitem_cols tc2 _) as [d|] eqn:Hd; [|done].
      intros [= <- <- <-]. by eapply path_extend.
    + unfold py_bind, py_print, py_lift, py_ret.
      destruct (getitem_cols (filter _ _) df) as [dfd|] eqn:Hdd; [|done].
      destruct (getitem_cols tc _) as [d|] eqn:Hd; [|done].
      intros [= <- <- <-]. by eapply path_drop.
Qed.

Lemma get_table_columns_inv table w cols w' :
  get_table_columns table w = Some (cols, w') →
  ∃ c, execute ("SHOW COLUMNS FROM `" +:+ table +:+ "`;") (cursor w) = Some c
       ∧ w' = mkWorld c (trace w ++ [Execute ("SHOW COLUMNS FROM `" +:+ table +:+ "`;")])
       ∧ mapM head (fetchall c) = Some cols.
Proof.
  unfold get_table_columns, py_bind, py_execute, py_fetchall, py_lift.
  destruct (execute _ (cursor w)) as [c|]; [|done]. simpl.
  destruct (mapM head (fetchall c)) as [l|] eqn:Hl; [|done].
  intros [= <- <-]. eauto.
Qed.

Lemma for_each_execute (f : string → string) xs w w' :
  for_each (λ x, py_execute (f x)) xs w = Some ((), w') ↔
  ∃ c', execute_all (f <$> xs) (cursor w) = Some c'
        ∧ w' = mkWorld c' (trace w ++ (Execute ∘ f <$> xs)).
Proof.
  revert w. induction xs as [|x xs IH]; intros w; simpl.
  - unfold py_ret. rewrite app_nil_r. destruct w. naive_solver.
  - unfold py_bind, py_execute at 1.
    destruct (execute (f x) (cursor w)) as [c1|]; simpl; [|naive_solver].
    rewrite IH. simpl. by rewrite <-app_assoc.
Qed.

Lemma ensure_extra_columns_as_null_inv table extra w w' :
  extra ≠ [] →
  ensure_extra_columns_as_null table extra w = Some ((), w') →
  ∃ c', execute_all (add_column_sql table <$> extra) (cursor w) = Some c'
        ∧ w' = mkWorld c' (trace w ++ (Execute ∘ add_column_sql table <$> extra)
                                   ++ [Print (InfoCreatedExtra table extra)]).
Proof.
  intros He. unfold ensure_extra_columns_as_null.
  rewrite bool_decide_eq_false_2 by done.
  unfold py_bind at 1.
  destruct (for_each _ extra w) as [[[] w1]|] eqn:Hf; [|done].
  apply (for_each_execute (add_column_sql table)) in Hf as (c' & Hc' & ->).
  unfold py_print, emit. simpl. intros [= <-].
  exists c'. by rewrite <-app_assoc.
Qed.

Lemma align_df_to_table_shape table df flag w df' cols' w' :
  align_df_to_table table df flag w = Some ((df', cols'), w') →
  mapM head (fetchall (cursor w')) = Some cols'
  ∧ columns df' = cols'
  ∧ Forall (λ r, length r = length cols') (rows df')
  ∧ len df' = len df.
Proof.
  intros Ha. apply align_df_to_table_inv in Ha.
  destruct Ha as [tc w1 w2 Hg extra He Hf Hen Hg2 df1 Hd|w1 dfd Hg extra He Hf -> Hdd Hd|Hg He Hd];
    apply getitem_cols_Some_inv in Hd as (Hc & Hl & Hr).
  - apply get_table_columns_inv in Hg2 as (c & _ & -> & Hm).
    split_and!; [done..|]. subst df1.
    by rewrite Hl, !len_set_all_none.
  - apply get_table_columns_inv in Hg as (c & _ & -> & Hm).
    apply getitem_cols_Some_inv in Hdd as (_ & Hl' & _).
    split_and!; [done..|]. by rewrite Hl, len_set_all_none.
  - apply get_table_columns_inv in Hg as (c & _ & -> & Hm).
    split_and!; [done..|]. by rewrite Hl, len_set_all_none.
Qed.

(** The reordering at the end of [align_df_to_table] never meets an absent
    label: when the cursor answers its requests, the alignment returns. *)
Lemma align_df_to_table_returns table df flag w table_cols w1 :
  df_rect df →
  get_table_columns table w = Some (table_cols, w1) →
  let extra := filter (λ c, c ∉ table_cols) (columns df) in
  (extra ≠ [] → flag = true →
   ∃ w2, ensure_extra_columns_as_null table extra w1 = Some ((), w2)
         ∧ is_Some (get_table_columns table w2)) →
  is_Some (align_df_to_table table df flag w).
Proof.
  intros Hr Hg extra Hcur.
  assert (∀ tc d, df_rect d →
            is_Some (getitem_cols tc (set_all_none (filter (λ c, c ∉ columns d) tc) d)))
    as Hre.
  { intros tc d Hd. apply getitem_cols_is_Some; [by apply rect_set_all_none|].
    apply Forall_forall. intros c Hc. apply columns_set_all_none_incl.
    destruct (decide (c ∈ columns d)); [by left|right].
    by apply list_elem_of_filter. }
  unfold align_df_to_table, py_bind at 1. rewrite Hg. fold extra.
  destruct (decide (extra = [])) as [He|He].
  - rewrite bool_decide_eq_false_2 by (by intros ?). simpl.
    unfold py_bind, py_ret, py_lift.
    destruct (Hre table_cols df Hr) as [d ->]. done.
  - rewrite bool_decide_eq_true_2 by done. destruct flag; simpl.
    + destruct (Hcur He eq_refl) as (w2 & Hen & [[tc2 w3] Hg2]).
      unfold py_bind at 1 2. rewrite Hen. unfold py_bind at 1. rewrite Hg2.
      unfold py_ret, py_bind, py_lift.
      destruct (Hre tc2 (set_all_none extra df)) as [d ->]; [|done].
      by apply rect_set_all_none.
    + unfold py_bind, py_print, py_lift, py_ret.
      assert (is_Some (getitem_cols (filter (λ c, c ∈ table_cols) (columns df)) df))
        as [dfd Hdd].
      { apply getitem_cols_is_Some; [done|]. apply Forall_forall.
        by intros c [_ ?]%list_elem_of_filter. }
      rewrite Hdd.
      assert (is_Some (getitem_cols table_cols
                (set_all_none (filter (λ c, c ∉ columns df) table_cols) dfd)))
        as [d ->]; [|done].
      pose proof (getitem_cols_Some_inv _ _ _ Hdd) as (Hcd & Hld & Hrd).
      apply getitem_cols_is_Some.
      { apply rect_set_all_none. unfold df_rect. by rewrite Hcd. }
      apply Forall_forall. intros c Hc. apply columns_set_all_none_incl.
      rewrite Hcd. destruct (decide (c ∈ columns df)); [left|right].
      * by apply list_elem_of_filter.
      * by apply list_elem_of_filter.
Qed.

(** C1. Whatever the cursor answers, the frame [align_df_to_table] returns
    for a frame with distinct labels is rectangular over the column list it
    returns with it: its labels are that list, in that order, every row has
    one cell per label, and it has as many rows as the input.  The returned
    list is the target column list as last fetched.  And the function does
    return whenever the cursor answers its requests: the reordering never
    meets a label the frame lacks. *)
Theorem align_df_to_table_rectangular table df flag w :
  df_wf df →
  (∀ df' cols' w',
     align_df_to_table table df flag w = Some ((df', cols'), w') →
     mapM head (fetchall (cursor w')) = Some cols'
     ∧ columns df' = cols'
     ∧ Forall (λ r, length r = length cols') (rows df')
     ∧ len df' = len df)
  ∧ (∀ table_cols w1,
       get_table_columns table w = Some (table_cols, w1) →
       let extra := filter (λ c, c ∉ table_cols) (columns df) in
       (extra ≠ [] → flag = true →
        ∃ w2, ensure_extra_columns_as_null table extra w1 = Some ((), w2)
              ∧ is_Some (get_table_columns table w2)) →
       is_Some (align_df_to_table table df flag w)).
Proof.
  intros [_ Hrect]. split.
  - intros df' cols' w'. apply align_df_to_table_shape.
  - intros table_cols w1 Hg extra Hcur.
    by apply (align_df_to_table_returns table df flag w table_cols w1).
Qed.

Lemma get_table_columns_trace table w cols w' :
  get_table_columns table w = Some (cols, w') →
  trace w' = trace w ++ [Execute (show_columns_sql table)].
Proof. by intros (c & _ & -> & _)%get_table_columns_inv. Qed.

Lemma extra_in_columns (table_cols : list string) df :
  Forall (λ c, c ∈ columns df) (filter (λ c, c ∉ table_cols) (columns df)).
Proof. apply Forall_forall. by intros c [_ ?]%list_elem_of_filter. Qed.

(** C4. With extra columns and the extend flag set, [align_df_to_table]
    sends, after the first fetch of the column list, one
    [ALTER TABLE ... ADD COLUMN ... TEXT NULL] per extra column, in the order
    the extra columns appear in the dataset, and then fetches the column list
    again; the list it returns is the re-fetched one.  In the frame it
    returns every cell of an extra column is null, and so is every cell of a
    column of the re-fetched list that the dataset does not have. *)
Theorem align_df_to_table_extends table df w table_cols w1 df' cols' w' :
  df_wf df →
  get_table_columns table w = Some (table_cols, w1) →
  let extra := filter (λ c, c ∉ table_cols) (columns df) in
  extra ≠ [] →
  align_df_to_table table df true w = Some ((df', cols'), w') →
  trace w' = trace w ++ [Execute (show_columns_sql table)]
                     ++ (Execute ∘ add_column_sql table <$> extra)
                     ++ [Print (InfoCreatedExtra table extra);
                         Execute (show_columns_sql table)]
  ∧ mapM head (fetchall (cursor w')) = Some cols'
  ∧ columns df' = cols'
  ∧ (∀ c j, c ∈ extra → c ∈ cols' → j < len df → cell df' j c = Some VNone)
  ∧ (∀ c j, c ∈ cols' → c ∉ columns df → j < len df → cell df' j c = Some VNone).
Proof.
  intros [_ Hr] Hg extra He Ha.
  apply align_df_to_table_inv in Ha.
  destruct Ha as [tc w1' w2 Hg' extra' He' _ Hen Hg2 df1 Hd|w1' dfd _ ? _ [=]|Hg' He' _].
  2:{ rewrite Hg in Hg'. simplify_eq. }
  rewrite Hg in Hg'. simplify_eq.
  apply ensure_extra_columns_as_null_inv in Hen as (c2 & _ & ->); [|done].
  pose proof (get_table_columns_trace _ _ _ _ Hg) as Ht1.
  pose proof (get_table_columns_trace _ _ _ _ Hg2) as Ht2. simpl in Ht2.
  apply get_table_columns_inv in Hg2 as (c3 & _ & -> & Hm). simpl in *.
  assert (columns df1 = columns df) as Hcols.
  { apply columns_set_all_none_present, extra_in_columns. }
  assert (df_rect df1) as Hr1 by by apply rect_set_all_none.
  pose proof (getitem_cols_Some_inv _ _ _ Hd) as (Hc & _ & _).
  split_and!; [|done|done|..].
  - rewrite Ht1, <-!app_assoc. done.
  - intros c j Hce Hcc Hj.
    rewrite (cell_getitem_cols _ _ _ _ _ Hd Hcc).
    rewrite cell_set_all_none_notin; [by apply cell_set_all_none_in|done|].
    intros [Hn _]%list_elem_of_filter. apply Hn. rewrite Hcols.
    by apply list_elem_of_filter in Hce as [_ ?].
  - intros c j Hcc Hn Hj.
    rewrite (cell_getitem_cols _ _ _ _ _ Hd Hcc).
    apply cell_set_all_none_in; [done| |].
    + apply list_elem_of_filter. by rewrite Hcols.
    + subst df1. by rewrite len_set_all_none.
Qed.

(** A column the first fetch already lists keeps its cells: nulls are forced
    only on the extra columns and on the columns the dataset lacks. *)
Lemma align_df_to_table_keeps table df flag w table_cols w1 df' cols' w' c j :
  df_rect df →
  get_table_columns table w = Some (table_cols, w1) →
  align_df_to_table table df flag w = Some ((df', cols'), w') →
  c ∈ columns df → c ∈ table_cols → c ∈ cols' →
  cell df' j c = cell df j c.
Proof.
  intros Hr Hg Ha Hcd Hct Hcc. apply align_df_to_table_inv in Ha.
  destruct Ha as [tc w1' w2 Hg' extra He Hf Hen Hg2 df1 Hd|w1' dfd Hg' extra He Hf -> Hdd Hd|Hg' He Hd];
    rewrite Hg in Hg'; simplify_eq.
  - assert (columns df1 = columns df) as Hcols.
    { apply columns_set_all_none_present, extra_in_columns. }
    rewrite (cell_getitem_cols _ _ _ _ _ Hd Hcc).
    rewrite cell_set_all_none_notin.
    + apply cell_set_all_none_notin; [done|].
      intros [Hn _]%list_elem_of_filter. by apply Hn.
    + by apply rect_set_all_none.
    + intros [Hn _]%list_elem_of_filter. apply Hn. by rewrite Hcols.
  - rewrite (cell_getitem_cols _ _ _ _ _ Hd Hcc).
    pose proof (getitem_cols_Some_inv _ _ _ Hdd) as (Hcdd & _ & Hrd).
    rewrite cell_set_all_none_notin.
    + apply (cell_getitem_cols _ _ _ _ _ Hdd). by apply list_elem_of_filter.
    + unfold df_rect. by rewrite Hcdd.
    + intros [Hn _]%list_elem_of_filter. by apply Hn.
  - rewrite (cell_getitem_cols _ _ _ _ _ Hd Hcc).
    apply cell_set_all_none_notin; [done|].
    intros [Hn _]%list_elem_of_filter. by apply Hn.
Qed.

(** A column of the returned list that the dataset lacks is all null. *)
Lemma align_df_to_table_missing table df flag w df' cols' w' c j :
  df_rect df →
  align_df_to_table table df flag w = Some ((df', cols'), w') →
  c ∈ cols' → c ∉ columns df → j < len df →
  cell df' j c = Some VNone.
Proof.
  intros Hr Ha Hcc Hn Hj. apply align_df_to_table_inv in Ha.
  destruct Ha as [tc w1 w2 Hg extra He Hf Hen Hg2 df1 Hd|w1 dfd Hg extra He Hf -> Hdd Hd|Hg He Hd];
    rewrite (cell_getitem_cols _ _ _ _ _ Hd Hcc).
  - assert (columns df1 = columns df) as Hcols.
    { apply columns_set_all_none_present, extra_in_columns. }
    apply cell_set_all_none_in.
    + by apply rect_set_all_none.
    + apply list_elem_of_filter. by rewrite Hcols.
    + subst df1. by rewrite len_set_all_none.
  - pose proof (getitem_cols_Some_inv _ _ _ Hdd) as (Hcdd & Hld & Hrd).
    apply cell_set_all_none_in.
    + unfold df_rect. by rewrite Hcdd.
    + by apply list_elem_of_filter.
    + by rewrite Hld.
  - apply cell_set_all_none_in; [done| |done]. by apply list_elem_of_filter.
Qed.

End Align.

(** ** Batches *)

Lemma py_range_0 n size :
  size ≠ 0 →
  ∃ k, py_range 0 n size = (λ i, i * size) <$> seq 0 k
       ∧ n ≤ k * size ∧ (k = 0 ∨ (k - 1) * size < n).
Proof.
  intros Hs. unfold py_range. case_bool_decide as Hn.
  - exists 0. split; [done|lia].
  - exists ((n - 0 - 1) `div` size + 1). split; [done|].
    rewrite Nat.sub_0_r.
    pose proof (Nat.div_mod_eq (n - 1) size) as Hd.
    pose proof (Nat.mod_upper_bound (n - 1) size Hs) as Hm.
    split; [|right]; nia.
Qed.

Lemma concat_slices {A} (l : list A) size k :
  concat ((λ i, take size (drop i l)) <$> ((λ i, i * size) <$> seq 0 k))
  = take (k * size) l.
Proof.
  induction k as [|k IH]; [done|].
  rewrite seq_S, !fmap_app, concat_app, IH. simpl.
  rewrite app_nil_r, take_take_drop. f_equal. lia.
Qed.

Lemma lookup_slice {A} (l : list A) size j :
  size ≠ 0 →
  take size (drop (j `div` size * size) l) !! (j `mod` size) = l !! j.
Proof.
  intros Hs. rewrite lookup_take_lt by by apply Nat.mod_upper_bound.
  rewrite lookup_drop. f_equal. pose proof (Nat.div_mod_eq j size). lia.
Qed.

Lemma chunked_spec df size :
  size ≠ 0 →
  ∃ parts, chunked df size = Some parts
    ∧ concat (to_numpy <$> parts) = to_numpy df
    ∧ (∀ k p, parts !! k = Some p →
         columns p = columns df
         ∧ to_numpy p = take size (drop (k * size) (to_numpy df))
         ∧ 0 < len p ≤ size)
    ∧ (∀ j, to_numpy df !! j
            = parts !! (j `div` size) ≫= λ p, to_numpy p !! (j `mod` size)).
Proof.
  intros Hs. unfold chunked. rewrite bool_decide_eq_false_2 by done.
  destruct (py_range_0 (len df) size Hs) as (n & -> & Hn & Hlast).
  eexists. split; [done|]. unfold to_numpy, len in *.
  assert (∀ k p,
    ((λ i, iloc i (i + size) df) <$> ((λ i, i * size) <$> seq 0 n)) !! k = Some p →
    k < n ∧ p = mkDF (columns df) (take size (drop (k * size) (rows df)))) as Hpart.
  { intros k p. rewrite !list_lookup_fmap.
    destruct (seq 0 n !! k) as [i|] eqn:Hi; [|done]. simpl.
    apply lookup_seq in Hi as [-> Hk]. intros [= <-]. split; [done|].
    unfold iloc. f_equal. f_equal. lia. }
  split_and!.
  - rewrite <-(list_fmap_compose (λ i, iloc i (i + size) df) rows).
    rewrite (list_fmap_ext _ (λ i, take size (drop i (rows df)))).
    + rewrite concat_slices. by apply take_ge.
    + intros _ i _. simpl. f_equal. lia.
  - intros k p [Hk ->]%Hpart. simpl. split_and!; [done..| |].
    + unfold len. simpl. rewrite length_take, length_drop.
      assert (k * size ≤ (n - 1) * size) by (apply Nat.mul_le_mono_r; lia). lia.
    + unfold len. simpl. rewrite length_take. lia.
  - intros j. destruct (decide (j `div` size < n)) as [Hlt|Hge].
    + rewrite !list_lookup_fmap, lookup_seq_lt by done. simpl.
      unfold iloc. simpl.
      replace (j `div` size * size + size - j `div` size * size) with size by lia.
      by rewrite lookup_slice.
    + rewrite (lookup_ge_None_2 _ (j `div` size)).
      * simpl. apply lookup_ge_None_2.
        pose proof (Nat.div_mod_eq j size).
        assert (n * size ≤ j `div` size * size) by (apply Nat.mul_le_mono_r; lia). lia.
      * rewrite !length_fmap, length_seq. lia.
Qed.

(** ** The shape of a load *)

Section Load.
Context `{PyFloatRepr} `{Cursor C}.

Lemma for_each_executemany sql parts w w' :
  for_each (λ part, py_executemany sql (to_numpy part)) parts w = Some ((), w') ↔
  ∃ c', executemany_all sql (to_numpy <$> parts) (cursor w) = Some c'
        ∧ w' = mkWorld c' (trace w ++ (ExecuteMany sql ∘ to_numpy <$> parts)).
Proof.
  revert w. induction parts as [|p parts IH]; intros w; simpl.
  - unfold py_ret. rewrite app_nil_r. destruct w. naive_solver.
  - unfold py_bind, py_executemany at 1.
    destruct (executemany sql (to_numpy p) (cursor w)) as [c1|]; simpl; [|naive_solver].
    rewrite IH. simpl. by rewrite <-app_assoc.
Qed.

Lemma load_table_iff table df flag w w' :
  load_table table df flag w = Some ((), w') ↔
  ∃ df' cols' w1 parts c',
    align_df_to_table table (prepared table df) flag w = Some ((df', cols'), w1)
    ∧ chunked df' 5000 = Some parts
    ∧ executemany_all (insert_sql table cols') (to_numpy <$> parts) (cursor w1) = Some c'
    ∧ w' = mkWorld c' (trace w1
             ++ (ExecuteMany (insert_sql table cols') ∘ to_numpy <$> parts)).
Proof.
  unfold load_table. fold (prepared table df). unfold py_bind at 1.
  destruct (align_df_to_table _ _ _ w) as [[[df' cols'] w1]|].
  2:{ split; [done|]. by intros (? & ? & ? & ? & ? & ? & _). }
  fold (insert_sql table cols'). unfold py_bind, py_lift.
  destruct (chunked df' 5000) as [parts|] eqn:Hch.
  2:{ split; [done|]. intros (? & ? & ? & ? & ? & [= <- <- <-] & Hch' & _). congruence. }
  rewrite for_each_executemany. split.
  - intros (c' & Hc' & ->). by exists df', cols', w1, parts, c'.
  - intros (? & ? & ? & ? & c' & [= <- <- <-] & Hch' & Hc' & ->).
    rewrite Hch in Hch'. simplify_eq. by exists c'.
Qed.

(** C7. [chunked] cuts a frame into consecutive slices of at most [size]
    rows: batch [k] holds rows [k * size] up to [k * size + size], no batch is
    empty, the batches put end to end are the rows of the frame in order, and
    row [j] sits in batch [j / size] at offset [j mod size] and nowhere else.
    [load_table] sends the aligned frame in such batches of at most 5000
    rows, one [executemany] per batch, in order, and nothing else after the
    alignment: when the alignment returns, [load_table] returns exactly when
    the cursor takes every batch, and what it has done then is the
    alignment followed by these [executemany] calls; when the alignment
    raises, so does [load_table]. *)
Theorem load_table_batches :
  (∀ df size, size ≠ 0 →
     ∃ parts, chunked df size = Some parts
       ∧ concat (to_numpy <$> parts) = to_numpy df
       ∧ (∀ k p, parts !! k = Some p →
            columns p = columns df
            ∧ to_numpy p = take size (drop (k * size) (to_numpy df))
            ∧ 0 < len p ≤ size)
       ∧ (∀ j, to_numpy df !! j
               = parts !! (j `div` size) ≫= λ p, to_numpy p !! (j `mod` size)))
  ∧ (∀ table df flag w df' cols' w1,
       align_df_to_table table (prepared table df) flag w = Some ((df', cols'), w1) →
       ∃ parts,
         chunked df' 5000 = Some parts
         ∧ concat (to_numpy <$> parts) = to_numpy df'
         ∧ Forall (λ p, 0 < len p ≤ 5000) parts
         ∧ load_table table df flag w
           = match executemany_all (insert_sql table cols') (to_numpy <$> parts)
                     (cursor w1) with
             | Some c' =>
                 Some ((), mkWorld c' (trace w1
                        ++ (ExecuteMany (insert_sql table cols') ∘ to_numpy <$> parts)))
             | None => None
             end)
  ∧ (∀ table df flag w,
       align_df_to_table table (prepared table df) flag w = None →
       load_table table df flag w = None).
Proof.
  split_and!; [apply chunked_spec| |].
  - intros table df flag w df' cols' w1 Ha.
    destruct (chunked_spec df' 5000) as (parts & Hc & Hcat & Hparts & _); [lia|].
    exists parts. split_and!; [done..| |].
    + apply Forall_lookup. intros k p Hk. by apply Hparts in Hk as (_ & _ & ?).
    + destruct (executemany_all _ _ (cursor w1)) as [c'|] eqn:Hex.
      * apply load_table_iff. by exists df', cols', w1, parts, c'.
      * destruct (load_table table df flag w) as [[[] w']|] eqn:Hload; [|done].
        apply load_table_iff in Hload
          as (df2 & cols2 & w2 & parts2 & c2 & Ha2 & Hc2 & Hex2 & _).
        rewrite Ha in Ha2. simplify_eq.
  - intros table df flag w Ha.
    destruct (load_table table df flag w) as [[[] w']|] eqn:Hload; [|done].
    apply load_table_iff in Hload as (df2 & cols2 & w2 & parts2 & c2 & Ha2 & _).
    congruence.
Qed.

End Load.

(** ** The command line *)

Lemma dict_get_ns_set k k' x (ns : Namespace) d :
  dict_get k (ns_set k' x ns) d = if bool_decide (k' = k) then x else dict_get k ns d.
Proof.
  induction ns as [|[k0 x0] ns IH]; simpl.
  - done.
  - destruct (decide (k0 = k')) as [->|Hne].
    + rewrite bool_decide_eq_true_2 by done. simpl. by case_bool_decide.
    + rewrite bool_decide_eq_false_2 by done. simpl. rewrite IH.
      repeat case_bool_decide; congruence.
Qed.

Lemma option_string_action_elem_of specs o a :
  option_string_action specs o = Some a → a ∈ specs.
Proof.
  unfold option_string_action. intros Hh.
  destruct (filter (λ a, o ∈ option_strings a) specs) as [|a0 l] eqn:Hf; simplify_eq/=.
  assert (a ∈ a :: l) as Hin by set_solver.
  rewrite <-Hf in Hin. by apply list_elem_of_filter in Hin as [_ ?].
Qed.

Section ParseArgsProps.
Context {argparse : ArgParse}.

Lemma take_action_flag_on a v ns ns' :
  a ∈ ap → take_action a v ns = Some ns' → flag_on ns → flag_on ns'.
Proof.
  intros Ha Ht Hns.
  assert (Forall (λ a, dest a = "add_extras_as_null" → arg_action a = StoreTrue) ap)
    as Hap by (repeat (constructor; [vm_compute; congruence|]); constructor).
  pose proof (proj1 (Forall_forall _ _) Hap a Ha) as Hd.
  unfold take_action in Ht. unfold flag_on in *.
  destruct (arg_action a) eqn:Hact.
  - destruct v as [s|]; [|done]. simpl in Ht.
    destruct (if arg_type_int a then _ else _) as [x|]; [|done]. simplify_eq/=.
    rewrite dict_get_ns_set. case_bool_decide as Heq; [|done].
    by specialize (Hd Heq).
  - destruct v; simplify_eq. rewrite dict_get_ns_set. by case_bool_decide.
  - done.
Qed.

Lemma take_actions_flag_on found seen ns ns' seen' :
  take_actions ap found seen ns = Some (ns', seen') → flag_on ns → flag_on ns'.
Proof.
  revert seen ns. induction found as [|[o v] found IH]; intros seen ns Hc Hns.
  { cbn in Hc. by simplify_eq. }
  cbn [take_actions] in Hc.
  destruct (option_string_action ap o) as [a|] eqn:Ho; [|done].
  apply option_string_action_elem_of in Ho. cbn [mbind option_bind] in Hc.
  destruct (take_action a v ns) as [ns1|] eqn:Ht; [|done]. cbn [mbind option_bind] in Hc.
  eapply IH; [exact Hc|]. by eapply take_action_flag_on.
Qed.

Lemma parse_args_flag_on argv args : parse_args ap argv = Some args → flag_on args.
Proof.
  unfold parse_args. intros Hp.
  destruct (match_options ap argv) as [found|]; [|done]. cbn [mbind option_bind] in Hp.
  destruct (take_actions ap found [] _) as [[ns seen]|] eqn:Hc; [|done].
  cbn [mbind option_bind] in Hp.
  case_bool_decide; simplify_eq.
  eapply take_actions_flag_on; [exact Hc|]. by vm_compute.
Qed.

End ParseArgsProps.

(** ** The run *)

Lemma never_drops_bind {C A B} (m : Py C A) (k : A → Py C B) :
  never_drops m → (∀ a, never_drops (k a)) → never_drops (py_bind m k).
Proof.
  intros Hm Hk w b w'. unfold py_bind.
  destruct (m w) as [[a w1]|] eqn:Hmw; [|done]. intros Hkw.
  destruct (Hm _ _ _ Hmw) as (e1 & He1 & Hn1).
  destruct (Hk _ _ _ _ Hkw) as (e2 & He2 & Hn2).
  exists (e1 ++ e2). split; [by rewrite He2, He1, app_assoc|].
  by apply Forall_app.
Qed.

Lemma never_drops_silent {C A} (m : Py C A) :
  (∀ w a w', m w = Some (a, w') → w' = w) → never_drops m.
Proof.
  intros Hm w a w' ->%Hm. exists []. split; [by rewrite app_nil_r|constructor].
Qed.

Lemma never_drops_event {C A} (m : Py C A) e :
  (∀ w a w', m w = Some (a, w') → trace w' = trace w ++ [e]) →
  not_dropping e → never_drops m.
Proof.
  intros Hm He w a w' Hw%Hm. exists [e]. split; [done|]. by repeat constructor.
Qed.

Lemma never_drops_for_each {C A} (body : A → Py C unit) xs :
  (∀ x, never_drops (body x)) → never_drops (for_each body xs).
Proof.
  intros Hb. induction xs as [|x xs IH]; simpl.
  - apply never_drops_silent. unfold py_ret. naive_solver.
  - by apply never_drops_bind.
Qed.

Lemma for_each_app {C A} (body : A → Py C unit) xs ys (w : World C) :
  for_each body (xs ++ ys) w
  = match for_each body xs w with
    | Some (_, w1) => for_each body ys w1
    | None => None
    end.
Proof.
  revert w. induction xs as [|x xs IH]; intros w; simpl; [done|].
  unfold py_bind. destruct (body x w) as [[[] w1]|]; [apply IH|done].
Qed.

Section RunProps.
Context `{PyFloatRepr} `{Cursor C} {argparse : ArgParse}.

Lemma never_drops_print (n : notice) :
  (∀ t cs, n ≠ InfoDroppingExtra t cs) → never_drops (C:=C) (py_print n).
Proof.
  intros Hn. apply (never_drops_event _ (Print n)).
  - unfold py_print, emit. by intros w a w' [= _ <-].
  - intros t cs [=]. by eapply Hn.
Qed.

Lemma never_drops_load_table table df : never_drops (load_table table df true).
Proof.
  intros w [] w' (df' & cols' & w1 & parts & c' & Ha & _ & _ & ->)%load_table_iff.
  simpl. apply align_df_to_table_inv in Ha.
  assert (Forall not_dropping (ExecuteMany (insert_sql table cols') ∘ to_numpy <$> parts))
    as Hparts.
  { apply Forall_fmap, Forall_forall. by intros p _ t cs. }
  destruct Ha as [tc w0 w2 Hg extra He _ Hen Hg2 df1 Hd|w0 dfd _ ? _ [=]|Hg He Hd].
  - apply ensure_extra_columns_as_null_inv in Hen as (c2 & _ & ->); [|done].
    rewrite (get_table_columns_trace _ _ _ _ Hg2). simpl.
    rewrite (get_table_columns_trace _ _ _ _ Hg).
    eexists. split; [by rewrite <-!app_assoc|].
    repeat (apply Forall_app; split); try done; try (by repeat constructor).
    apply Forall_fmap, Forall_forall. by intros p _ t cs.
  - rewrite (get_table_columns_trace _ _ _ _ Hg).
    eexists. split; [by rewrite <-!app_assoc|].
    repeat (apply Forall_app; split); try done; by repeat constructor.
Qed.

Lemma never_drops_load_one fs base_dir name :
  never_drops (load_one fs base_dir true name).
Proof.
  unfold load_one. destruct (fs _) as [df|].
  - apply never_drops_bind; [by apply never_drops_print|]. intros _.
    apply never_drops_bind; [apply never_drops_load_table|]. intros _.
    apply never_drops_bind; [|intros _; by apply never_drops_print].
    apply (never_drops_event _ Commit); [|done].
    unfold py_commit. intros w a w'.
    destruct (commit (cursor w)); [|done]. by intros [= _ <-].
  - by apply never_drops_print.
Qed.

(** C8. A name of the load order whose file is absent costs the run one
    skip notice and nothing else: the loop body returns normally on it,
    leaves the cursor as it is, and the names after it are processed next, in
    order, exactly as they would be from there. *)
Theorem missing_file_is_skipped fs base_dir flag before name after (w : World C) :
  let path := os_path_join base_dir (name +:+ ".csv") in
  fs path = None →
  load_one fs base_dir flag name w = Some ((), emit (Print (NoticeSkip name path)) w)
  ∧ for_each (load_one fs base_dir flag) (before ++ name :: after) w
    = match for_each (load_one fs base_dir flag) before w with
      | Some (_, w1) =>
          for_each (load_one fs base_dir flag) after (emit (Print (NoticeSkip name path)) w1)
      | None => None
      end.
Proof.
  intros path Hfs.
  assert (∀ w1, load_one fs base_dir flag name w1
                = Some ((), emit (Print (NoticeSkip name path)) w1)) as Hskip.
  { intros w1. unfold load_one. fold path. by rewrite Hfs. }
  split; [apply Hskip|].
  rewrite for_each_app. destruct (for_each _ before w) as [[[] w1]|]; [|done].
  simpl. unfold py_bind. by rewrite Hskip.
Qed.

(** C10. Every command line [parse_args] accepts leaves
    [add_extras_as_null] true, so [main] runs every load with the flag set
    and never prints the dropping-extras notice, which is what the drop
    branch of [align_df_to_table] starts with.  This holds whatever way the
    library reads the tokens and whatever [int] accepts ([ArgParse]): it
    follows from the declarations alone, [store_true] with default [True]
    and no other option writing the attribute. *)
Theorem add_extras_as_null_always_true :
  (∀ argv args, parse_args ap argv = Some args →
     dict_get "add_extras_as_null" args VNone = VBool true)
  ∧ (∀ argv fs (w : World C),
       main argv fs w
       = match parse_args ap argv with
         | Some args =>
             match dict_get "base_dir" args VNone with
             | VStr base_dir =>
                 py_bind (for_each (load_one fs base_dir true) LOAD_ORDER)
                         (λ _, py_print NoticeDone) w
             | _ => None
             end
         | None => None
         end)
  ∧ (∀ argv fs (w w' : World C),
       main argv fs w = Some ((), w') →
       ∃ evs, trace w' = trace w ++ evs
              ∧ ∀ t cs, Print (InfoDroppingExtra t cs) ∉ evs).
Proof.
  assert (∀ argv fs (w : World C),
       main argv fs w
       = match parse_args ap argv with
         | Some args =>
             match dict_get "base_dir" args VNone with
             | VStr base_dir =>
                 py_bind (for_each (load_one fs base_dir true) LOAD_ORDER)
                         (λ _, py_print NoticeDone) w
             | _ => None
             end
         | None => None
         end) as Hmain.
  { intros argv fs w. unfold main, py_bind at 1, py_lift at 1.
    destruct (parse_args ap argv) as [args|] eqn:Hp; [|done].
    apply parse_args_flag_on in Hp. unfold flag_on in Hp. rewrite Hp. simpl.
    unfold py_bind at 1, py_lift at 1.
    by destruct (dict_get "base_dir" args VNone). }
  split_and!; [apply parse_args_flag_on|apply Hmain|].
  intros argv fs w w'. rewrite Hmain.
  destruct (parse_args ap argv) as [args|]; [|done].
  destruct (dict_get "base_dir" args VNone) as [| | | |base_dir]; try done.
  intros Hrun.
  assert (never_drops (py_bind (for_each (load_one (C:=C) fs base_dir true) LOAD_ORDER)
                               (λ _, py_print NoticeDone))) as Hnd.
  { apply never_drops_bind; [|intros _; by apply never_drops_print].
    apply never_drops_for_each, never_drops_load_one. }
  destruct (Hnd _ _ _ Hrun) as (evs & Hevs & Hall).
  exists evs. split; [done|]. intros t cs Hin.
  by apply (proj1 (Forall_forall _ _) Hall _ Hin t cs).
Qed.

End RunProps.

(** ** Statements as the in-memory database reads them *)

Arguments insert_sql : simpl never.
Arguments insert_ignore_sql : simpl never.
Arguments show_columns_sql : simpl never.
Arguments add_column_sql : simpl never.

Lemma app_String a s t : String a s +:+ t = String a (s +:+ t).
Proof. done. Qed.

Lemma app_EmptyString s : "" +:+ s = s.
Proof. done. Qed.

Lemma strip_prefix_app p s : strip_prefix p (p +:+ s) = Some s.
Proof.
  induction p as [|a p IH]; [by destruct s|].
  rewrite app_String. simpl. by rewrite bool_decide_eq_true_2.
Qed.

Lemma str_replace_no_backtick s :
  no_backtick s = true → str_replace backtick "``" s = s.
Proof.
  induction s as [|a s IH]; [done|]. simpl.
  intros [Ha Hs]%andb_prop. apply negb_true_iff, bool_decide_eq_false in Ha.
  rewrite bool_decide_eq_false_2 by done. by rewrite IH.
Qed.

Lemma read_quoted_escaped c s rest :
  s = String backtick rest → not_quote_first rest →
  read_quoted (str_replace backtick "``" c +:+ s) = Some (c, rest).
Proof.
  intros -> Hrest. induction c as [|a c IH].
  - change (read_quoted (String backtick rest) = Some (EmptyString, rest)).
    simpl. destruct rest as [|b rest']; [done|].
    simpl in Hrest. by rewrite bool_decide_eq_false_2.
  - simpl str_replace. destruct (decide (a = backtick)) as [->|Hne].
    + rewrite bool_decide_eq_true_2 by done.
      change (read_quoted (String backtick (String backtick
                (str_replace backtick "``" c +:+ String backtick rest)))
              = Some (String backtick c, rest)).
      simpl. by rewrite IH.
    + rewrite bool_decide_eq_false_2 by done.
      change (read_quoted (String a (str_replace backtick "``" c +:+ String backtick rest))
              = Some (String a c, rest)).
      simpl. rewrite bool_decide_eq_false_2 by done. by rewrite IH.
Qed.

Lemma read_quoted_plain t s rest :
  no_backtick t = true → s = String backtick rest → not_quote_first rest →
  read_quoted (t +:+ s) = Some (t, rest).
Proof.
  intros Ht -> Hrest. rewrite <-(str_replace_no_backtick t) at 1 by done.
  by apply (read_quoted_escaped _ _ rest).
Qed.

Lemma mapM_head_show_rows cols : mapM head (show_rows cols) = Some cols.
Proof.
  unfold show_rows. apply mapM_Some_2.
  induction cols; constructor; done.
Qed.

Lemma db_execute_show table db :
  no_backtick table = true →
  db_execute (show_columns_sql table) db
  = tb ← tables db !! table; Some (mkMemDB (tables db) (show_rows (tcols tb))).
Proof.
  intros Ht. unfold db_execute, db_show_columns, show_columns_sql.
  rewrite strip_prefix_app. simpl.
  rewrite (read_quoted_plain table _ ";") by done. simpl.
  destruct (tables db !! table) as [tb|] eqn:Htb; simpl; [done|].
  unfold db_add_column. by vm_compute.
Qed.

Lemma db_execute_add table c db :
  no_backtick table = true →
  db_execute (add_column_sql table c) db
  = tb ← tables db !! table;
    guard (lower c ∉ lower <$> tcols tb);;
    Some (mkMemDB (<[table := add_text_column c tb]> (tables db)) []).
Proof.
  intros Ht. unfold db_execute.
  assert (db_show_columns (add_column_sql table c) db = None) as -> by done.
  unfold db_add_column, add_column_sql.
  rewrite strip_prefix_app. simpl.
  rewrite (read_quoted_plain table _
    (" ADD COLUMN `" +:+ str_replace backtick "``" c +:+ "` TEXT NULL;")) by done.
  simpl. rewrite app_EmptyString.
  rewrite (read_quoted_escaped c _ " TEXT NULL;") by done. simpl.
  done.
Qed.

Lemma db_insert_ignore_insert_sql table cols params db :
  no_backtick table = true →
  db_insert_ignore (insert_sql table cols) params db
  = tb ← tables db !! table;
    guard (insert_sql table cols = insert_ignore_sql table (tcols tb));;
    guard (Forall (λ r, length r = length (tcols tb)) params);;
    Some (mkMemDB (<[table := insert_rows params tb]> (tables db)) []).
Proof.
  intros Ht. unfold db_insert_ignore.
  set (tail := " (" +:+ String.concat ", " ((λ c, "`" +:+ c +:+ "`") <$> cols)
     +:+ ") VALUES (" +:+ String.concat "," (replicate (length cols) "%s") +:+ ")").
  assert (strip_prefix "INSERT IGNORE INTO `" (insert_sql table cols)
          = Some (table +:+ String backtick tail)) as ->.
  { unfold insert_sql. apply strip_prefix_app. }
  cbn [mbind option_bind].
  rewrite (read_quoted_plain table _ tail) by done. reflexivity.
Qed.

Opaque insert_sql insert_ignore_sql.

Lemma insert_rows_nil tb : insert_rows [] tb = tb.
Proof. by destruct tb. Qed.

Lemma insert_rows_app b1 b2 tb :
  insert_rows b2 (insert_rows b1 tb) = insert_rows (b1 ++ b2) tb.
Proof. unfold insert_rows. simpl. by rewrite foldl_app. Qed.

Lemma memdb_executemany_all table cols batches db db' tb :
  no_backtick table = true →
  tables db !! table = Some tb →
  executemany_all (insert_sql table cols) batches db = Some db' →
  tables db' = <[table := insert_rows (concat batches) tb]> (tables db)
  ∧ (batches ≠ [] → insert_sql table cols = insert_ignore_sql table (tcols tb)).
Proof.
  intros Ht. revert db tb. induction batches as [|b bs IH]; intros db tb Htb.
  - intros [= <-]. rewrite insert_rows_nil. split; [|done].
    symmetry. by apply insert_id.
  - cbn [executemany_all concat].
    change (executemany (insert_sql table cols) b db)
      with (db_insert_ignore (insert_sql table cols) b db).
    rewrite db_insert_ignore_insert_sql, Htb by exact Ht. cbn [mbind option_bind].
    rewrite option_guard_decide.
    destruct (decide (insert_sql table cols = insert_ignore_sql table (tcols tb)))
      as [Hsql|Hsql]; [|intros [=]].
    rewrite option_guard_decide.
    destruct (decide (Forall (λ r, length r = length (tcols tb)) b))
      as [Hw|Hw]; [|intros [=]].
    cbn [mbind option_bind]. intros Hrest.
    apply (IH _ (insert_rows b tb)) in Hrest as [-> _].
    2:{ cbn [tables]. apply lookup_insert_eq. }
    cbn [tables]. rewrite insert_insert_eq, insert_rows_app.
    split; [reflexivity|]. intros _. exact Hsql.
Qed.

Lemma memdb_executemany_all_is_Some table cols batches db tb :
  no_backtick table = true →
  tables db !! table = Some tb →
  (batches ≠ [] → insert_sql table cols = insert_ignore_sql table (tcols tb)) →
  Forall (Forall (λ r, length r = length (tcols tb))) batches →
  is_Some (executemany_all (insert_sql table cols) batches db).
Proof.
  intros Ht. revert db tb. induction batches as [|b bs IH]; intros db tb Htb Hsql Hw.
  - by eexists.
  - cbn [executemany_all].
    change (executemany (insert_sql table cols) b db)
      with (db_insert_ignore (insert_sql table cols) b db).
    rewrite db_insert_ignore_insert_sql, Htb by exact Ht. cbn [mbind option_bind].
    apply Forall_cons in Hw as [Hb Hbs].
    assert (insert_sql table cols = insert_ignore_sql table (tcols tb)) as Hs.
    { apply Hsql. intros [=]. }
    rewrite (option_guard_True _ _ Hs).
    rewrite (option_guard_True _ _ Hb). cbn [mbind option_bind].
    apply (IH _ (insert_rows b tb)).
    + cbn [tables]. apply lookup_insert_eq.
    + intros _. exact Hs.
    + exact Hbs.
Qed.

(** ** The loader on the in-memory database *)

Lemma memdb_get_table_columns table (w : World MemDB) :
  no_backtick table = true →
  get_table_columns table w
  = tb ← tables (cursor w) !! table;
    Some (tcols tb,
          mkWorld (mkMemDB (tables (cursor w)) (show_rows (tcols tb)))
                  (trace w ++ [Execute (show_columns_sql table)])).
Proof.
  intros Ht. unfold get_table_columns, py_bind, py_execute, py_fetchall, py_lift.
  fold (show_columns_sql table).
  change (execute (show_columns_sql table) (cursor w))
    with (db_execute (show_columns_sql table) (cursor w)).
  rewrite db_execute_show by done.
  destruct (tables (cursor w) !! table) as [tb|]; [|done]. simpl.
  by rewrite mapM_head_show_rows.
Qed.

Lemma memdb_execute_all_add table extra db db' tb :
  no_backtick table = true →
  tables db !! table = Some tb →
  execute_all (add_column_sql table <$> extra) db = Some db' →
  ∃ tb', tables db' = <[table := tb']> (tables db) ∧ tcols tb' = tcols tb ++ extra.
Proof.
  intros Ht. revert db tb. induction extra as [|c extra IH]; intros db tb Htb; simpl.
  - intros [= <-]. exists tb. split; [symmetry; by apply insert_id|by rewrite app_nil_r].
  - change (execute (add_column_sql table c) db)
      with (db_execute (add_column_sql table c) db).
    rewrite db_execute_add, Htb by done. simpl.
    case_guard; [|done]. simpl. intros Hrest.
    eapply IH in Hrest as (tb' & Htabs & Hcols).
    2:{ simpl. apply lookup_insert_eq. }
    exists tb'. simpl in *. rewrite Htabs, insert_insert_eq. split; [done|].
    by rewrite Hcols, <-app_assoc.
Qed.

(** What an alignment leaves in the database: the columns of the table
    grow by the extra columns when the flag is set, and nothing changes when
    there is nothing to add. *)
Lemma memdb_align table df flag (w w' : World MemDB) df' cols' tb :
  no_backtick table = true →
  tables (cursor w) !! table = Some tb →
  align_df_to_table table df flag w = Some ((df', cols'), w') →
  let extra := filter (λ c, c ∉ tcols tb) (columns df) in
  get_table_columns table w
  = Some (tcols tb,
          mkWorld (mkMemDB (tables (cursor w)) (show_rows (tcols tb)))
                  (trace w ++ [Execute (show_columns_sql table)]))
  ∧ cols' = tcols tb ++ (if flag then extra else [])
  ∧ (∃ tb', tables (cursor w') = <[table := tb']> (tables (cursor w)) ∧ tcols tb' = cols')
  ∧ (flag = false ∨ extra = [] → tables (cursor w') = tables (cursor w)).
Proof.
  intros Ht Htb Ha extra.
  pose proof (memdb_get_table_columns table w Ht) as Hg0. rewrite Htb in Hg0.
  simpl in Hg0. split; [done|].
  apply align_df_to_table_inv in Ha.
  destruct Ha as [tc w1 w2 Hg extra' He Hf Hen Hg2 df1 Hd|w1 dfd Hg extra' He Hf -> Hdd Hd|Hg He Hd];
    rewrite Hg0 in Hg; simplify_eq.
  - apply ensure_extra_columns_as_null_inv in Hen as (c2 & Hall & ->); [|done].
    simpl in Hall.
    eapply memdb_execute_all_add in Hall as (tb' & Htabs & Hcols); [|done..].
    rewrite memdb_get_table_columns in Hg2 by done. simpl in Hg2.
    rewrite Htabs, lookup_insert_eq in Hg2. simpl in Hg2. simplify_eq. simpl.
    split_and!; [done|by exists tb'|]. intros [?|?]; done.
  - simpl. rewrite app_nil_r. split_and!; [done| |done].
    exists tb. split; [symmetry; by apply insert_id|done].
  - simpl. fold extra in He. rewrite He.
    assert (tcols tb ++ (if flag then [] else []) = tcols tb) as ->
      by (destruct flag; apply app_nil_r).
    split_and!; [done| |done].
    exists tb. split; [symmetry; by apply insert_id|done].
Qed.

Lemma chunked_5000 df :
  ∃ parts, chunked df 5000 = Some parts
    ∧ concat (to_numpy <$> parts) = rows df
    ∧ (parts = [] ↔ rows df = [])
    ∧ ∀ P, Forall P (rows df) → Forall (Forall P) (to_numpy <$> parts).
Proof.
  destruct (chunked_spec df 5000) as (parts & Hc & Hcat & Hparts & _); [lia|].
  exists parts. unfold to_numpy in *. split_and!; [done..| |].
  - split; [by intros ->|]. intros Hnil. rewrite Hnil in Hcat.
    destruct parts as [|p ps]; [done|]. exfalso.
    destruct (Hparts 0 p eq_refl) as (_ & _ & Hlen & _).
    simpl in Hcat. apply app_eq_nil in Hcat as [Hp _].
    unfold len in Hlen. rewrite Hp in Hlen. simpl in Hlen. lia.
  - intros P HP. apply Forall_fmap, Forall_lookup. intros k p Hk. simpl.
    destruct (Hparts k p Hk) as (_ & -> & _). by apply Forall_take, Forall_drop.
Qed.

Lemma insert_ignore_heads_mono S rs x :
  x ∈ head <$> S → x ∈ head <$> foldl insert_ignore S rs.
Proof.
  revert S. induction rs as [|r rs IH]; intros S Hx; [done|]. simpl.
  apply IH. unfold insert_ignore. case_bool_decide; [done|].
  rewrite fmap_app. apply elem_of_app. by left.
Qed.

Lemma insert_ignore_heads_in S rs r :
  r ∈ rs → head r ∈ head <$> foldl insert_ignore S rs.
Proof.
  revert S. induction rs as [|r0 rs IH]; intros S Hr.
  { by apply elem_of_nil in Hr. }
  simpl. apply elem_of_cons in Hr as [->|Hr]; [|by apply IH].
  apply insert_ignore_heads_mono. unfold insert_ignore.
  case_bool_decide; [done|]. rewrite fmap_app. apply elem_of_app. right.
  simpl. apply list_elem_of_singleton. done.
Qed.

Lemma insert_ignore_absorb S rs :
  Forall (λ r, head r ∈ head <$> S) rs → foldl insert_ignore S rs = S.
Proof.
  induction 1 as [|r rs Hr _ IH]; [done|]. simpl.
  unfold insert_ignore at 2. by rewrite bool_decide_eq_true_2.
Qed.

Section Rerun.
Context `{PyFloatRepr}.

Lemma columns_prepared table df : columns (prepared table df) = columns df.
Proof. unfold prepared. by rewrite columns_to_bool_int. Qed.

Lemma len_prepared table df : len (prepared table df) = len df.
Proof. unfold prepared. by rewrite len_to_bool_int, len_normalise_nulls. Qed.

Lemma rect_prepared table df : df_rect df → df_rect (prepared table df).
Proof. intros Hr. by apply rect_to_bool_int, rect_normalise_nulls. Qed.

Lemma memdb_load_table table df flag (w w1 : World MemDB) tb :
  no_backtick table = true →
  tables (cursor w) !! table = Some tb →
  load_table table df flag w = Some ((), w1) →
  ∃ df1 cols1 wa tb1 parts,
    align_df_to_table table (prepared table df) flag w = Some ((df1, cols1), wa)
    ∧ tcols tb1 = cols1
    ∧ chunked df1 5000 = Some parts
    ∧ tables (cursor w1) = <[table := insert_rows (rows df1) tb1]> (tables (cursor w))
    ∧ (rows df1 ≠ [] → insert_sql table cols1 = insert_ignore_sql table cols1)
    ∧ trace w1 = trace wa ++ (ExecuteMany (insert_sql table cols1) ∘ to_numpy <$> parts).
Proof.
  intros Ht Htb (df1 & cols1 & wa & parts & c' & Ha & Hch & Hex & ->)%load_table_iff.
  destruct (memdb_align _ _ _ _ _ _ _ _ Ht Htb Ha) as (_ & _ & (tb1 & Htabs & Hcols) & _).
  destruct (chunked_5000 df1) as (parts' & Hch' & Hcat & Hnil & _).
  rewrite Hch in Hch'. simplify_eq.
  eapply (memdb_executemany_all _ _ _ _ _ tb1) in Hex as [Hfin Hsql]; [|done|].
  2:{ rewrite Htabs. apply lookup_insert_eq. }
  exists df1, (tcols tb1), wa, tb1, parts'. split_and!; [done..| | |done].
  - simpl. by rewrite Hfin, Htabs, insert_insert_eq, Hcat.
  - intros Hne. apply Hsql. intros Hp%fmap_nil_inv. by apply Hne, Hnil.
Qed.

Lemma memdb_rerun table df flag (w w1 : World MemDB) tb :
  df_wf df →
  no_backtick table = true →
  tables (cursor w) !! table = Some tb →
  load_table table df flag w = Some ((), w1) →
  ∃ df1 cols1 wa1 tb1 wg df2 wa2 parts2 w2,
    align_df_to_table table (prepared table df) flag w = Some ((df1, cols1), wa1)
    ∧ cols1 = tcols tb ++ (if flag then filter (λ c, c ∉ tcols tb) (columns df) else [])
    ∧ tables (cursor w1) !! table = Some (insert_rows (rows df1) tb1)
    ∧ tcols tb1 = cols1
    ∧ get_table_columns table w1 = Some (cols1, wg)
    ∧ align_df_to_table table (prepared table df) flag w1 = Some ((df2, cols1), wa2)
    ∧ (flag = true → trace wa2 = trace w1 ++ [Execute (show_columns_sql table)])
    ∧ chunked df2 5000 = Some parts2
    ∧ load_table table df flag w1 = Some ((), w2)
    ∧ trace w2 = trace wa2 ++ (ExecuteMany (insert_sql table cols1) ∘ to_numpy <$> parts2)
    ∧ tables (cursor w2)
      = <[table := insert_rows (rows df2) (insert_rows (rows df1) tb1)]> (tables (cursor w1)).
Proof.
  intros [_ Hrect] Ht Htb Hload.
  destruct (memdb_load_table _ _ _ _ _ _ Ht Htb Hload)
    as (df1 & cols1 & wa1 & tb1 & parts1 & Ha1 & Htc1 & Hch1 & Htabs1 & Hsql1 & Htr1).
  destruct (memdb_align _ _ _ _ _ _ _ _ Ht Htb Ha1) as (_ & Hcols1 & _ & _).
  rewrite columns_prepared in Hcols1.
  set (tbf := insert_rows (rows df1) tb1) in *.
  assert (tables (cursor w1) !! table = Some tbf) as Htbf.
  { rewrite Htabs1. apply lookup_insert_eq. }
  assert (tcols tbf = cols1) as Htcf by done.
  pose proof (memdb_get_table_columns table w1 Ht) as Hg2.
  rewrite Htbf in Hg2. cbn [mbind option_bind] in Hg2. rewrite Htcf in Hg2.
  set (dfp := prepared table df) in *.
  assert (df_rect dfp) as Hrp by by apply rect_prepared.
  assert (flag = true → filter (λ c, c ∉ cols1) (columns dfp) = []) as Hno.
  { intros ->. destruct (filter _ (columns dfp)) as [|c l] eqn:Hf; [done|]. exfalso.
    assert (c ∈ c :: l) as Hin by set_solver. rewrite <-Hf in Hin.
    apply list_elem_of_filter in Hin as [Hn Hc]. apply Hn.
    subst dfp. rewrite columns_prepared in Hc. rewrite Hcols1.
    apply elem_of_app. destruct (decide (c ∈ tcols tb)); [by left|right].
    by apply list_elem_of_filter. }
  destruct (align_df_to_table_returns table dfp flag w1 cols1 _ Hrp Hg2)
    as [[[df2 cols2] wa2] Ha2].
  { intros Hne ->. by destruct Hne, Hno. }
  destruct (memdb_align _ _ _ _ _ _ _ _ Ht Htbf Ha2) as (_ & Hcols2 & _ & Hsame).
  rewrite Htcf in Hcols2, Hsame.
  assert (cols2 = cols1) as ->.
  { rewrite Hcols2. destruct flag; [|apply app_nil_r].
    rewrite Hno by done. apply app_nil_r. }
  assert (tables (cursor wa2) = tables (cursor w1)) as Htabs2.
  { apply Hsame. destruct flag; [right; by apply Hno|by left]. }
  destruct (align_df_to_table_shape _ _ _ _ _ _ _ Ha1) as (_ & _ & _ & Hl1).
  destruct (align_df_to_table_shape _ _ _ _ _ _ _ Ha2) as (_ & _ & Hw2 & Hl2).
  destruct (chunked_5000 df2) as (parts2 & Hch2 & Hcat2 & Hnil2 & Hall2).
  destruct (memdb_executemany_all_is_Some table cols1 (to_numpy <$> parts2)
              (cursor wa2) tbf Ht) as [c2 Hex2].
  { by rewrite Htabs2. }
  { intros Hne. rewrite Htcf. apply Hsql1. intros Hr1.
    apply Hne. assert (rows df2 = []) as Hr2.
    { apply length_zero_iff_nil. unfold len in *. rewrite Hl2, <-Hl1, Hr1. done. }
    apply Hnil2 in Hr2 as ->. done. }
  { rewrite Htcf. by apply Hall2. }
  pose proof (memdb_executemany_all _ _ _ _ _ tbf Ht
                ltac:(by rewrite Htabs2) Hex2) as [Hfin _].
  eexists df1, cols1, wa1, tb1, _, df2, wa2, parts2,
    (mkWorld c2 (trace wa2 ++ (ExecuteMany (insert_sql table cols1) ∘ to_numpy <$> parts2))).
  split_and!; try done.
  - intros ->. apply align_df_to_table_inv in Ha2.
    destruct Ha2 as [tc w0 w3 Hg extra He _ Hen Hg3 df3 Hd|w0 dfd _ ? _ [=]|Hg He Hd].
    + rewrite Hg2 in Hg. simplify_eq. by destruct He, Hno.
    + by eapply get_table_columns_trace.
  - apply load_table_iff. by exists df2, cols1, wa2, parts2, c2.
  - simpl. by rewrite Hfin, Htabs2, Hcat2.
Qed.

Lemma head_row_cell df p rest j r :
  columns df = p :: rest → rows df !! j = Some r → head r = cell df j p.
Proof.
  intros Hc Hr. unfold cell. rewrite Hc, Hr.
  assert (col_index p (p :: rest) = Some 0) as ->.
  { apply col_index_Some. split; [done|]. lia. }
  simpl. by rewrite head_lookup.
Qed.

(** C5. On the in-memory database, whose insert drops a row when its key
    (the first column) is already stored: once a load of a dataset into a
    table has gone through, loading the same dataset again goes through too
    and leaves every table exactly as it was, so no row is added, duplicated
    or overwritten and the row count is that of loading once. *)
Theorem load_table_idempotent table df flag (w w1 : World MemDB) tb :
  df_wf df →
  no_backtick table = true →
  tables (cursor w) !! table = Some tb →
  tcols tb ≠ [] →
  load_table table df flag w = Some ((), w1) →
  ∃ w2, load_table table df flag w1 = Some ((), w2)
        ∧ tables (cursor w2) = tables (cursor w1).
Proof.
  intros Hwf Ht Htb Hne Hload.
  destruct (memdb_rerun _ _ _ _ _ _ Hwf Ht Htb Hload)
    as (df1 & cols1 & wa1 & tb1 & wg & df2 & wa2 & parts2 & w2
        & Ha1 & Hcols1 & Htbf & Htc1 & Hg2 & Ha2 & _ & _ & Hload2 & _ & Hfin).
  exists w2. split; [done|]. rewrite Hfin.
  destruct (memdb_align _ _ _ _ _ _ _ _ Ht Htb Ha1) as (Hg1 & _ & _ & _).
  destruct (align_df_to_table_shape _ _ _ _ _ _ _ Ha1) as (_ & Hc1 & _ & Hl1).
  destruct (align_df_to_table_shape _ _ _ _ _ _ _ Ha2) as (_ & Hc2 & _ & Hl2).
  destruct Hwf as [_ Hrect]. pose proof (rect_prepared table df Hrect) as Hrp.
  destruct (tcols tb) as [|p rest] eqn:Hp; [done|].
  assert (p ∈ p :: rest) as Hpt by set_solver.
  assert (p ∈ cols1) as Hpc by (rewrite Hcols1; set_solver).
  assert (∀ j, j < len df → cell df2 j p = cell df1 j p) as Hcell.
  { intros j Hj. destruct (decide (p ∈ columns (prepared table df))) as [Hin|Hout].
    - rewrite (align_df_to_table_keeps _ _ _ _ _ _ _ _ _ p j Hrp Hg2 Ha2) by done.
      by rewrite (align_df_to_table_keeps _ _ _ _ _ _ _ _ _ p j Hrp Hg1 Ha1) by done.
    - rewrite (align_df_to_table_missing _ _ _ _ _ _ _ p j Hrp Ha2)
        by (done || by rewrite len_prepared).
      by rewrite (align_df_to_table_missing _ _ _ _ _ _ _ p j Hrp Ha1)
        by (done || by rewrite len_prepared). }
  assert (insert_rows (rows df2) (insert_rows (rows df1) tb1) = insert_rows (rows df1) tb1)
    as ->; [|by apply insert_id].
  unfold insert_rows at 1. simpl.
  rewrite insert_ignore_absorb; [done|].
  apply Forall_lookup. intros j r2 Hr2.
  assert (j < len df) as Hj.
  { rewrite <-len_prepared with (table := table), <-Hl2. by eapply lookup_lt_Some. }
  destruct (lookup_lt_is_Some_2 (rows df1) j) as [r1 Hr1].
  { fold (len df1). by rewrite Hl1, len_prepared. }
  assert (head r2 = head r1) as ->.
  { rewrite (head_row_cell df2 p (rest ++ (if flag then
               filter (λ c, c ∉ p :: rest) (columns df) else [])) j r2)
      by (done || by rewrite Hc2, Hcols1).
    rewrite (head_row_cell df1 p (rest ++ (if flag then
               filter (λ c, c ∉ p :: rest) (columns df) else [])) j r1)
      by (done || by rewrite Hc1, Hcols1).
    by apply Hcell. }
  apply insert_ignore_heads_in. by eapply list_elem_of_lookup_2.
Qed.

End Rerun.

(** ** Columns the schema already has *)

(** C9. A dataset column that the column list fetched at alignment time
    already holds keeps its cells through [align_df_to_table] (as long as
    the cursor still lists it afterwards); nulls are forced only on columns
    the schema lacks at that call.  So, on the in-memory database, a second
    load after a first one that extended the schema sends a single
    [SHOW COLUMNS], adds nothing, and hands the insert step, for every
    dataset column, the normalised values of the file, the once-extra
    columns included. *)
Theorem known_columns_pass_through :
  (∀ `{Cursor C} table df flag (w w1 w' : World C) table_cols df' cols' c j,
     df_wf df →
     get_table_columns table w = Some (table_cols, w1) →
     align_df_to_table table df flag w = Some ((df', cols'), w') →
     c ∈ columns df → c ∈ table_cols → c ∈ cols' →
     cell df' j c = cell df j c)
  ∧ (∀ `{PyFloatRepr} table df (w w1 : World MemDB) tb,
       df_wf df →
       no_backtick table = true →
       tables (cursor w) !! table = Some tb →
       load_table table df true w = Some ((), w1) →
       ∃ df2 cols2 parts w2,
         load_table table df true w1 = Some ((), w2)
         ∧ trace w2 = trace w1 ++ [Execute (show_columns_sql table)]
                        ++ (ExecuteMany (insert_sql table cols2) ∘ to_numpy <$> parts)
         ∧ chunked df2 5000 = Some parts
         ∧ columns df2 = cols2
         ∧ ∀ c j, c ∈ columns df → cell df2 j c = cell (prepared table df) j c).
Proof.
  split.
  - intros C HC table df flag w w1 w' table_cols df' cols' c j [_ Hr] Hg Ha.
    by eapply align_df_to_table_keeps.
  - intros HR table df w w1 tb Hwf Ht Htb Hload.
    destruct (memdb_rerun _ _ _ _ _ _ Hwf Ht Htb Hload)
      as (df1 & cols1 & wa1 & tb1 & wg & df2 & wa2 & parts2 & w2
          & Ha1 & Hcols1 & Htbf & Htc1 & Hg2 & Ha2 & Htr2 & Hch2 & Hload2 & Htrw & _).
    exists df2, cols1, parts2, w2.
    destruct (align_df_to_table_shape _ _ _ _ _ _ _ Ha2) as (_ & Hc2 & _ & _).
    split_and!; [done| |done|done|].
    + by rewrite Htrw, Htr2, <-app_assoc.
    + intros c j Hc.
      assert (c ∈ cols1) as Hc1.
      { rewrite Hcols1. apply elem_of_app.
        destruct (decide (c ∈ tcols tb)); [by left|right].
        by apply list_elem_of_filter. }
      destruct Hwf as [_ Hr].
      eapply align_df_to_table_keeps; [by apply rect_prepared|exact Hg2|exact Ha2|..];
        [by rewrite columns_prepared|done..].
Qed.

(** ** Null normalisation and the boolean columns *)

Lemma bool_int_replace_nulls `{PyFloatRepr} v :
  bool_int_value (replace_nulls_value v) = bool_int_value v.
Proof.
  rewrite replace_nulls_value_spec. case_bool_decide as Hin; [|done].
  unfold null_like in Hin. rewrite !elem_of_cons, elem_of_nil in Hin.
  destruct Hin as [->|[->|[->|[->|[->|[->|[->|[]]]]]]]]; by vm_compute.
Qed.

(** C6 as stated fails: [load_table] starts with [normalise_nulls] on the
    whole frame, and that step turns the empty string held by the boolean
    column [repeat_customer_flag] of [customers] into null. *)
Lemma boolean_column_is_null_normalised :
  ¬ (∀ table df c j,
       c ∈ dict_get table BOOL_COLS [] →
       cell (normalise_nulls df) j c = cell df j c).
Proof.
  intros Hskip.
  specialize (Hskip "customers"
    (mkDF ["customer_id"; "repeat_customer_flag"] [[VInt 1; VStr ""]])
    "repeat_customer_flag" 0).
  assert ("repeat_customer_flag" ∈ dict_get "customers" BOOL_COLS []) as Hin
    by (vm_compute; set_solver).
  specialize (Hskip Hin). vm_compute in Hskip. discriminate.
Qed.

(** C6, amended. In the frame [load_table] aligns, a cell of a designated
    boolean column is the boolean normalisation of the null-normalised raw
    cell: the null step does run on these columns.  It changes nothing in
    the outcome, which is also the boolean normalisation of the raw cell,
    and the cell is never null. *)
Theorem boolean_columns_prepared `{PyFloatRepr} table df c j :
  c ∈ dict_get table BOOL_COLS [] →
  cell (prepared table df) j c
  = bool_int_value <$> (replace_nulls_value <$> cell df j c)
  ∧ cell (prepared table df) j c = bool_int_value <$> cell df j c
  ∧ cell (prepared table df) j c ≠ Some VNone.
Proof.
  intros Hc. unfold prepared, normalise_nulls.
  rewrite cell_to_bool_int, cell_df_map, bool_decide_eq_true_2 by done.
  destruct (cell df j c) as [v|]; simpl; [|done].
  rewrite bool_int_replace_nulls. split_and!; [done..|].
  by destruct (bool_int_value_cases v) as [-> | ->].
Qed.

(** ** A worked example *)

Lemma demo_df_wf : df_wf demo_df.
Proof. split; [apply (bool_decide_unpack _)|apply (bool_decide_unpack _)]; by vm_compute. Defined.

Lemma align_df_to_table_rectangular_witness :
  df_wf demo_df
  ∧ ∃ df' cols' w',
      align_df_to_table "products" demo_df true demo_world = Some ((df', cols'), w')
      ∧ columns df' = cols' ∧ len df' = len demo_df.
Proof.
  split; [exact demo_df_wf|].
  destruct (align_df_to_table "products" demo_df true demo_world)
    as [[[df' cols'] w']|] eqn:E; [|by vm_compute in E].
  exists df', cols', w'. split; [done|].
  destruct (proj1 (align_df_to_table_rectangular "products" demo_df true demo_world
                     demo_df_wf) _ _ _ E) as (_ & ? & _ & ?).
  done.
Defined.

Lemma align_df_to_table_extends_witness :
  ∃ df' cols' w',
    align_df_to_table "products" demo_df true demo_world = Some ((df', cols'), w')
    ∧ trace w' = [Execute "SHOW COLUMNS FROM `products`;";
                  Execute "ALTER TABLE `products` ADD COLUMN `category_name` TEXT NULL;";
                  Print (InfoCreatedExtra "products" ["category_name"]);
                  Execute "SHOW COLUMNS FROM `products`;"].
Proof.
  destruct (get_table_columns "products" demo_world) as [[tc w1]|] eqn:G;
    [|by vm_compute in G].
  assert (tc = ["id"; "name"]) as -> by (vm_compute in G; congruence).
  destruct (align_df_to_table "products" demo_df true demo_world)
    as [[[df' cols'] w']|] eqn:E; [|by vm_compute in E].
  exists df', cols', w'. split; [done|].
  destruct (align_df_to_table_extends _ _ _ _ _ _ _ _ demo_df_wf G
              ltac:(by vm_compute) E) as (-> & _).
  by vm_compute.
Defined.

Lemma load_table_idempotent_witness :
  ∃ w1 w2,
    load_table (H:=demo_float_repr) "products" demo_df true demo_world = Some ((), w1)
    ∧ load_table (H:=demo_float_repr) "products" demo_df true w1 = Some ((), w2)
    ∧ tables (cursor w2) = tables (cursor w1).
Proof.
  destruct (load_table (H:=demo_float_repr) "products" demo_df true demo_world)
    as [[[] w1]|] eqn:E; [|by vm_compute in E].
  destruct (load_table_idempotent (H:=demo_float_repr) "products" demo_df true
              demo_world w1 (mkTable ["id"; "name"] []) demo_df_wf eq_refl
              ltac:(by vm_compute) ltac:(done) E) as (w2 & E2 & Heq).
  by exists w1, w2.
Defined.

Lemma boolean_columns_prepared_witness :
  cell (prepared (H:=demo_float_repr) "customers"
         (mkDF ["customer_id"; "repeat_customer_flag"] [[VInt 1; VStr ""]])
         ) 0 "repeat_customer_flag"
  = Some (VInt 0).
Proof.
  destruct (boolean_columns_prepared (H:=demo_float_repr) "customers"
              (mkDF ["customer_id"; "repeat_customer_flag"] [[VInt 1; VStr ""]])
              "repeat_customer_flag" 0
              ltac:(vm_compute; set_solver)) as (_ & -> & _).
  by vm_compute.
Defined.

Lemma load_table_batches_witness :
  ∃ df' cols' w1 parts w',
    align_df_to_table "products" (prepared (H:=demo_float_repr) "products" demo_df) true
      demo_world = Some ((df', cols'), w1)
    ∧ chunked df' 5000 = Some parts
    ∧ load_table (H:=demo_float_repr) "products" demo_df true demo_world = Some ((), w')
    ∧ trace w' = trace w1
        ++ [ExecuteMany
              "INSERT IGNORE INTO `products` (`id`, `name`, `category_name`) VALUES (%s,%s,%s)"
              [[VInt 1; VStr "frame"; VNone]; [VInt 2; VNone; VNone]]].
Proof.
  destruct (align_df_to_table "products" (prepared (H:=demo_float_repr) "products" demo_df)
              true demo_world) as [[[df' cols'] w1]|] eqn:E; [|by vm_compute in E].
  destruct (proj1 (proj2 (load_table_batches (H:=demo_float_repr) (C:=MemDB)))
              "products" demo_df true demo_world df' cols' w1 E)
    as (parts & Hch & _ & _ & Hload).
  destruct (load_table (H:=demo_float_repr) "products" demo_df true demo_world)
    as [[[] w']|] eqn:L; [|by vm_compute in L].
  exists df', cols', w1, parts, w'. split_and!; [done..|].
  destruct (executemany_all _ _ (cursor w1)) as [c'|]; [|done].
  injection Hload as ->. cbn [trace]. f_equal.
  vm_compute in E. injection E as <- <- <-.
  vm_compute in Hch. injection Hch as <-. by vm_compute.
Defined.

Lemma missing_file_is_skipped_witness :
  for_each (load_one (H:=demo_float_repr) (λ _, None) "./ag_data/clean" true)
           LOAD_ORDER demo_world
  = match for_each (load_one (H:=demo_float_repr) (λ _, None) "./ag_data/clean" true)
                   (take 5 LOAD_ORDER) demo_world with
    | Some (_, w1) =>
        for_each (load_one (H:=demo_float_repr) (λ _, None) "./ag_data/clean" true)
                 (drop 6 LOAD_ORDER)
                 (emit (Print (NoticeSkip "products" "./ag_data/clean/products.csv")) w1)
    | None => None
    end.
Proof.
  exact (proj2 (missing_file_is_skipped (H:=demo_float_repr) (λ _, None)
                  "./ag_data/clean" true (take 5 LOAD_ORDER) "products"
                  (drop 6 LOAD_ORDER) demo_world eq_refl)).
Defined.

Lemma known_columns_pass_through_witness :
  ∃ w1 df2 cols2 parts w2,
    load_table (H:=demo_float_repr) "products" demo_df true demo_world = Some ((), w1)
    ∧ load_table (H:=demo_float_repr) "products" demo_df true w1 = Some ((), w2)
    ∧ chunked df2 5000 = Some parts
    ∧ trace w2 = trace w1 ++ [Execute (show_columns_sql "products")]
                   ++ (ExecuteMany (insert_sql "products" cols2) ∘ to_numpy <$> parts)
    ∧ cell df2 0 "category_name" = Some (VStr "wall art").
Proof.
  destruct (load_table (H:=demo_float_repr) "products" demo_df true demo_world)
    as [[[] w1]|] eqn:E; [|by vm_compute in E].
  destruct (proj2 known_columns_pass_through demo_float_repr "products" demo_df
              demo_world w1 (mkTable ["id"; "name"] []) demo_df_wf eq_refl
              ltac:(by vm_compute) E) as (df2 & cols2 & parts & w2 & E2 & Htr & Hch & _ & Hcell).
  exists w1, df2, cols2, parts, w2. split_and!; [done..|].
  rewrite Hcell by (vm_compute; set_solver). by vm_compute.
Defined.

Lemma add_extras_as_null_always_true_witness :
  ∃ args,
    parse_args (argparse:=demo_argparse) ap
      ["--user"; "root"; "--password=secret"; "--database"; "shop"] = Some args
    ∧ dict_get "add_extras_as_null" args VNone = VBool true.
Proof.
  destruct (parse_args (argparse:=demo_argparse) ap
              ["--user"; "root"; "--password=secret"; "--database"; "shop"])
    as [args|] eqn:E; [|by vm_compute in E].
  exists args. split; [done|].
  exact (proj1 (add_extras_as_null_always_true (H:=demo_float_repr) (C:=MemDB)
                  (argparse:=demo_argparse)) _ _ E).
Defined.

(** * Further properties of the loader *)

(** ** Alignment: what reaches the output, and what is sent *)

Section AlignMore.
Context `{Cursor C}.

Lemma align_df_to_table_extra_null table df w table_cols w1 df' cols' w' c j :
  df_rect df →
  get_table_columns table w = Some (table_cols, w1) →
  align_df_to_table table df true w = Some ((df', cols'), w') →
  c ∈ columns df → c ∉ table_cols → c ∈ cols' → j < len df →
  cell df' j c = Some VNone.
Proof.
  intros Hr Hg Ha Hcd Hct Hcc Hj. apply align_df_to_table_inv in Ha.
  destruct Ha as [tc w0 w2 Hg' extra He _ Hen Hg2 df1 Hd|w0 dfd _ ? _ [=]|Hg' He Hd];
    rewrite Hg in Hg'; simplify_eq.
  - assert (columns df1 = columns df) as Hcols.
    { apply columns_set_all_none_present, extra_in_columns. }
    rewrite (cell_getitem_cols _ _ _ _ _ Hd Hcc).
    rewrite cell_set_all_none_notin.
    + apply cell_set_all_none_in; [done| |done]. by apply list_elem_of_filter.
    + by apply rect_set_all_none.
    + intros [Hn _]%list_elem_of_filter. apply Hn. by rewrite Hcols.
  - exfalso. assert (c ∈ filter (λ c, c ∉ cols') (columns df)) as Hin
      by by apply list_elem_of_filter.
    rewrite He in Hin. by apply elem_of_nil in Hin.
Qed.

(** X1. Every cell of the aligned frame is accounted for: under a label that
    the dataset has and the first fetch of the column list already held,
    it is the dataset's cell; under any other label (a column the dataset
    lacks, or an extra column that was just added) it is null. *)
Theorem align_df_to_table_cells table df flag w table_cols w1 df' cols' w' :
  df_wf df →
  get_table_columns table w = Some (table_cols, w1) →
  align_df_to_table table df flag w = Some ((df', cols'), w') →
  ∀ c j, c ∈ cols' → j < len df →
    cell df' j c
    = if bool_decide (c ∈ columns df ∧ c ∈ table_cols) then cell df j c else Some VNone.
Proof.
  intros [_ Hr] Hg Ha c j Hcc Hj. case_bool_decide as Hk.
  - destruct Hk. by eapply align_df_to_table_keeps.
  - destruct (decide (c ∈ columns df)) as [Hcd|Hcd].
    + assert (c ∉ table_cols) as Hct by naive_solver.
      destruct flag; [by eapply align_df_to_table_extra_null|].
      exfalso. apply align_df_to_table_inv in Ha.
      destruct Ha as [tc w0 w2 _ ? _ [=] _ _ ? _|w0 dfd Hg' extra He _ -> Hdd Hd|Hg' He Hd];
        rewrite Hg in Hg'; by simplify_eq.
    + by eapply align_df_to_table_missing.
Qed.

(** X2. With the flag unset, or with no extra column, the alignment only reads
    the schema: it sends one [SHOW COLUMNS] and nothing else, returns the
    list that fetch gave, and no extra column reaches the output.  The only
    other event is the dropping notice when there are extras to drop. *)
Theorem align_df_to_table_read_only table df flag w table_cols w1 df' cols' w' :
  df_wf df →
  get_table_columns table w = Some (table_cols, w1) →
  let extra := filter (λ c, c ∉ table_cols) (columns df) in
  flag = false ∨ extra = [] →
  align_df_to_table table df flag w = Some ((df', cols'), w') →
  cols' = table_cols
  ∧ cursor w' = cursor w1
  ∧ trace w' = trace w ++ Execute (show_columns_sql table)
                 :: (if bool_decide (extra = []) then []
                     else [Print (InfoDroppingExtra table extra)])
  ∧ columns df' = table_cols
  ∧ ∀ c, c ∈ extra → c ∉ columns df'.
Proof.
  intros _ Hg extra Hro Ha.
  pose proof (get_table_columns_trace _ _ _ _ Hg) as Htr.
  destruct (align_df_to_table_shape _ _ _ _ _ _ _ Ha) as (_ & Hc & _ & _).
  apply align_df_to_table_inv in Ha.
  destruct Ha as [tc w0 w2 Hg' extra' He Hf Hen Hg2 df1 Hd|w0 dfd Hg' extra' He Hf -> Hdd Hd|Hg' He Hd];
    rewrite Hg in Hg'; simplify_eq.
  - by destruct Hro.
  - simpl. rewrite bool_decide_eq_false_2 by done. split_and!; [done..| |done|].
    + by rewrite Htr, <-app_assoc.
    + by intros c [Hn _]%list_elem_of_filter.
  - fold extra in He. rewrite He, bool_decide_eq_true_2 by done.
    split_and!; [done..|]. intros c Hin. by apply elem_of_nil in Hin.
Qed.

End AlignMore.

(** ** Batches: how many, and how full *)

Lemma range_count n size k :
  size ≠ 0 → n ≤ k * size → (k = 0 ∨ (k - 1) * size < n) →
  k = (n + size - 1) `div` size.
Proof.
  intros Hs Hle Hlast.
  pose proof (Nat.div_mod_eq (n + size - 1) size) as Hd.
  pose proof (Nat.mod_upper_bound (n + size - 1) size Hs) as Hm.
  set (q := (n + size - 1) `div` size) in *.
  set (r := (n + size - 1) `mod` size) in *.
  destruct (decide (k = q)) as [|Hne]; [done|]. exfalso.
  destruct (decide (k < q)).
  - assert ((k + 1) * size ≤ q * size) by (apply Nat.mul_le_mono_r; lia). nia.
  - assert ((q + 1) * size ≤ k * size) by (apply Nat.mul_le_mono_r; lia).
    destruct Hlast as [->|Hlast]; [lia|].
    assert (q * size ≤ (k - 1) * size) by (apply Nat.mul_le_mono_r; lia). nia.
Qed.

(** X3. [chunked] raises for a zero size and for nothing else.  For a positive
    size it yields the rows in [ceil (n / size)] batches; every batch but the
    last holds exactly [size] rows and the last holds the remainder, so an
    empty frame yields no batch at all. *)
Theorem chunked_count :
  (∀ df, chunked df 0 = None)
  ∧ (∀ df size, size ≠ 0 →
       ∃ parts, chunked df size = Some parts
         ∧ length parts = (len df + size - 1) `div` size
         ∧ ∀ k p, parts !! k = Some p →
             len p = if bool_decide (k + 1 < length parts) then size
                     else len df - k * size).
Proof.
  split; [done|]. intros df size Hs.
  unfold chunked. rewrite bool_decide_eq_false_2 by done.
  destruct (py_range_0 (len df) size Hs) as (n & -> & Hn & Hlast).
  eexists. split; [done|].
  rewrite !length_fmap, length_seq. split; [by apply range_count|].
  intros k p. rewrite !list_lookup_fmap.
  destruct (seq 0 n !! k) as [i|] eqn:Hi; [|done]. simpl.
  apply lookup_seq in Hi as [-> Hk]. intros [= <-].
  unfold len, iloc. simpl. rewrite length_take, length_drop.
  fold (len df). case_bool_decide as Hfull.
  - assert ((k + 1) * size ≤ (n - 1) * size) by (apply Nat.mul_le_mono_r; lia).
    destruct Hlast; lia.
  - assert (k = n - 1) as -> by lia.
    assert (n = n - 1 + 1) as Hn1 by lia. rewrite Hn1 in Hn. lia.
Qed.

(** ** Normalisation: fixed points and skipped columns *)

Lemma replace_nulls_value_idemp v :
  replace_nulls_value (replace_nulls_value v) = replace_nulls_value v.
Proof.
  rewrite (replace_nulls_value_spec v). case_bool_decide as Hin; [done|].
  rewrite replace_nulls_value_spec. by rewrite bool_decide_eq_false_2.
Qed.

(** X4. [normalise_nulls] is idempotent, and what it returns holds no null-like
    form any more: a cell is null or a value outside the list of null-like
    forms. *)
Theorem normalise_nulls_idempotent df :
  normalise_nulls (normalise_nulls df) = normalise_nulls df
  ∧ ∀ j c v, cell (normalise_nulls df) j c = Some v → v = VNone ∨ v ∉ null_like.
Proof.
  split.
  - unfold normalise_nulls, df_map. simpl. f_equal.
    rewrite <-list_fmap_compose. apply list_fmap_ext. intros _ r _. simpl.
    rewrite <-list_fmap_compose. apply list_fmap_ext. intros _ v _. simpl.
    apply replace_nulls_value_idemp.
  - intros j c v. unfold normalise_nulls. rewrite cell_df_map.
    destruct (cell df j c) as [v0|]; [|done]. simpl. intros [= <-].
    rewrite replace_nulls_value_spec. case_bool_decide; [by left|by right].
Qed.

Section BoolMore.
Context `{PyFloatRepr}.



Lemma digits_only_lower s : digits_only s = true → lower s = s.
Proof.
  induction s as [|a s IH]; [done|]. simpl.
  intros [Ha Hs]%andb_prop. rewrite IH by done. f_equal.
  clear -Ha. destruct a as [[] [] [] [] [] [] [] []]; by vm_compute in Ha |- *.
Qed.

Lemma digits_only_string_of_uint d : digits_only (NilEmpty.string_of_uint d) = true.
Proof. induction d; simpl; by rewrite ?IHd. Qed.

Lemma digits_only_str_of_int z : digits_only (str_of_int z) = true.
Proof.
  unfold str_of_int.
  assert (∀ d, digits_only (NilZero.string_of_uint d) = true) as Hu.
  { intros d. destruct d; try done; apply digits_only_string_of_uint. }
  destruct (Z.to_int z) as [d|d]; simpl; [apply Hu|].
  by rewrite Hu.
Qed.

Lemma str_of_int_one z : str_of_int z = "1" → z = 1%Z.
Proof.
  unfold str_of_int. intros Hs.
  assert (NilZero.int_of_string (NilZero.string_of_int (Z.to_int z)) = Some (Z.to_int z))
    as Hisi.
  { apply NilZero.isi; destruct z; simpl; intros [= Hnil];
      try done; by apply Unsigned.to_uint_nonnil in Hnil. }
  rewrite Hs in Hisi.
  change (NilZero.int_of_string "1")
    with (Some (Decimal.Pos (Decimal.D1 Decimal.Nil))) in Hisi.
  injection Hisi as Hz. by rewrite <-(DecimalZ.of_to z), <-Hz.
Qed.

(** X6. What the boolean step makes of cells that are not text: an integer is
    stored as true only when it is 1 (2 or -1 are stored as false), a Python
    boolean keeps its truth value, and null, NaN, the infinities and the float
    zeros are all stored as false. *)
Theorem bool_int_value_non_text :
  (∀ z, bool_int_value (VInt z) = VInt (if bool_decide (z = 1%Z) then 1 else 0))
  ∧ (∀ b, bool_int_value (VBool b) = VInt (if b then 1 else 0))
  ∧ bool_int_value VNone = VInt 0
  ∧ bool_int_value (VFloat np_nan) = VInt 0
  ∧ (∀ sign, bool_int_value (VFloat (S754_infinity sign)) = VInt 0)
  ∧ (∀ sign, bool_int_value (VFloat (S754_zero sign)) = VInt 0).
Proof.
  split_and!; try done; try (by intros []).
  intros z. unfold bool_int_value. simpl py_str.
  rewrite digits_only_lower by apply digits_only_str_of_int.
  f_equal. case_bool_decide as Hin.
  - rewrite bool_decide_eq_true_2; [done|].
    pose proof (digits_only_str_of_int z) as Hd.
    unfold truthy in Hin. rewrite !elem_of_cons, elem_of_nil in Hin.
    destruct Hin as [Heq|[Heq|[Heq|[Heq|[Heq|[]]]]]];
      try (rewrite Heq in Hd; by vm_compute in Hd).
    by apply str_of_int_one.
  - rewrite bool_decide_eq_false_2; [done|].
    intros ->. apply Hin. change (str_of_int 1) with "1". unfold truthy.
    rewrite !elem_of_cons. by right; left.
Qed.

End BoolMore.

(** ** An empty dataset *)

Section EmptyLoad.
Context `{PyFloatRepr} `{Cursor C}.

(** X7. A dataset without rows is aligned like any other (the schema is read,
    and extended when the file has extra columns), but nothing is inserted:
    [load_table] sends no [executemany] at all and ends in the state the
    alignment left. *)
Theorem load_table_empty table df flag (w : World C) :
  rows df = [] →
  load_table table df flag w
  = (λ r, ((), r.2)) <$> align_df_to_table table (prepared table df) flag w.
Proof.
  intros Hrows. unfold load_table. fold (prepared table df). unfold py_bind at 1.
  destruct (align_df_to_table _ _ _ w) as [[[df' cols'] w1]|] eqn:Ha; [|done].
  destruct (align_df_to_table_shape _ _ _ _ _ _ _ Ha) as (_ & _ & _ & Hl).
  rewrite len_prepared in Hl. unfold len in Hl. rewrite Hrows in Hl. simpl in Hl.
  assert (chunked df' 5000 = Some []) as Hch.
  { unfold chunked, py_range, len. rewrite Hl.
    rewrite bool_decide_eq_false_2 by lia. by rewrite bool_decide_eq_true_2 by lia. }
  unfold py_bind, py_lift. by rewrite Hch.
Qed.

End EmptyLoad.

(** ** The command line: required options and types *)

Lemma ap_dest_inj a a' : a ∈ ap → a' ∈ ap → dest a = dest a' → a = a'.
Proof.
  assert (Forall (λ a, Forall (λ a', dest a = dest a' → a = a') ap) ap) as Hall.
  { repeat (constructor;
      [repeat (constructor; [vm_compute; intros; congruence|]); constructor|]).
    constructor. }
  intros Ha Ha' Heq.
  exact (proj1 (Forall_forall _ _) (proj1 (Forall_forall _ _) Hall a Ha) a' Ha' Heq).
Qed.

Section Attributes.
Context {argparse : ArgParse}.

Lemma take_action_typed a v ns ns' seen :
  a ∈ ap → take_action a v ns = Some ns' → ns_typed ns seen →
  ns_typed ns' (dest a :: seen).
Proof.
  intros Ha Ht Hns a' Ha' Hh'.
  assert (∃ x, ns' = ns_set (dest a) x ns ∧ stored_kind a x) as (x & -> & Hx).
  { unfold take_action in Ht. unfold stored_kind.
    destruct (arg_action a) eqn:Hact.
    - destruct v as [s|]; [|done]. simpl in Ht.
      destruct (arg_type_int a).
      + destruct (py_int s) as [z|]; simplify_eq/=. eauto.
      + simplify_eq/=. eauto.
    - destruct v; simplify_eq. eauto.
    - done. }
  rewrite dict_get_ns_set. case_bool_decide as Heq.
  - apply ap_dest_inj in Heq as ->; [|done..]. split; [by right|done].
  - destruct (Hns a' Ha' Hh') as [Hd Hs]. split; [done|].
    intros [?|?]%elem_of_cons; [congruence|by apply Hs].
Qed.

Lemma take_actions_typed found seen ns ns' seen' :
  take_actions ap found seen ns = Some (ns', seen') → ns_typed ns seen → ns_typed ns' seen'.
Proof.
  revert seen ns. induction found as [|[o v] found IH]; intros seen ns Hc Hns.
  { cbn in Hc. by simplify_eq. }
  cbn [take_actions] in Hc.
  destruct (option_string_action ap o) as [a|] eqn:Ho; [|done].
  apply option_string_action_elem_of in Ho. cbn [mbind option_bind] in Hc.
  destruct (take_action a v ns) as [ns1|] eqn:Ht; [|done]. cbn [mbind option_bind] in Hc.
  eapply IH; [exact Hc|]. by eapply take_action_typed.
Qed.

Lemma parse_args_typed argv args :
  parse_args ap argv = Some args →
  ∃ seen, ns_typed args seen
          ∧ Forall (λ a, arg_required a = true → dest a ∈ seen) ap.
Proof.
  unfold parse_args. intros Hp.
  destruct (match_options ap argv) as [found|]; [|done]. cbn [mbind option_bind] in Hp.
  destruct (take_actions ap found [] _) as [[ns seen]|] eqn:Hc; [|done].
  cbn [mbind option_bind] in Hp.
  case_bool_decide as Hreq; simplify_eq.
  exists seen. split; [|done].
  eapply take_actions_typed; [exact Hc|].
  set (defaults := (λ a, (dest a, arg_default a)) <$> filter (λ a, arg_action a ≠ Help) ap).
  assert (Forall (λ a, arg_action a ≠ Help →
                       dict_get (dest a) defaults VNone = arg_default a) ap) as Hall.
  { repeat (constructor;
      [vm_compute; intros Hn; first [reflexivity | by destruct Hn]|]).
    constructor. }
  intros a Ha Hh. split; [left|by intros ?%elem_of_nil].
  by apply (proj1 (Forall_forall _ _) Hall).
Qed.

(** X8. A command line that [parse_args] accepts gave [--user], [--password]
    and [--database] (they have no default and would be [None] otherwise)
    and leaves every attribute with a value of its declared type: text for
    [user], [password], [database], [base_dir] and [host], an integer for
    [port].  This holds whatever way the library reads the tokens and
    whatever [int] accepts ([ArgParse]). *)
Theorem parse_args_attributes argv args :
  parse_args ap argv = Some args →
  (∃ u p d, dict_get "user" args VNone = VStr u
            ∧ dict_get "password" args VNone = VStr p
            ∧ dict_get "database" args VNone = VStr d)
  ∧ (∃ b h, dict_get "base_dir" args VNone = VStr b
            ∧ dict_get "host" args VNone = VStr h)
  ∧ (∃ z, dict_get "port" args VNone = VInt z).
Proof.
  intros (seen & Hty & Hreq)%parse_args_typed.
  assert (∀ a, a ∈ ap → arg_action a ≠ Help → arg_required a = true →
               stored_kind a (dict_get (dest a) args VNone)) as Hgiven.
  { intros a Ha Hh Hr. apply Hty; [done..|].
    by apply (proj1 (Forall_forall _ _) Hreq). }
  assert (∀ a, a ∈ ap → arg_action a ≠ Help → stored_kind a (arg_default a) →
               stored_kind a (dict_get (dest a) args VNone)) as Hdflt.
  { intros a Ha Hh Hd. destruct (Hty a Ha Hh) as [[-> | ?] _]; done. }
  pose proof (Hgiven (mkArgument ["--user"] Store false VNone true)
    ltac:(unfold ap; set_solver) ltac:(done) eq_refl) as [u Hu].
  pose proof (Hgiven (mkArgument ["--password"] Store false VNone true)
    ltac:(unfold ap; set_solver) ltac:(done) eq_refl) as [p Hp].
  pose proof (Hgiven (mkArgument ["--database"] Store false VNone true)
    ltac:(unfold ap; set_solver) ltac:(done) eq_refl) as [d Hd].
  pose proof (Hdflt (mkArgument ["--base-dir"] Store false (VStr "./ag_data/clean") false)
    ltac:(unfold ap; set_solver) ltac:(done) ltac:(by eexists)) as [b Hb].
  pose proof (Hdflt (mkArgument ["--host"] Store false (VStr "127.0.0.1") false)
    ltac:(unfold ap; set_solver) ltac:(done) ltac:(by eexists)) as [h Hh].
  pose proof (Hdflt (mkArgument ["--port"] Store true (VInt 3306) false)
    ltac:(unfold ap; set_solver) ltac:(done) ltac:(by eexists)) as [z Hz].
  split_and!; [by exists u, p, d|by exists b, h|by exists z].
Qed.

End Attributes.

(** ** A run that finds no file *)

Section NoFiles.
Context `{PyFloatRepr} `{Cursor C}.

(** X9. When none of the files of the load order exists under the base
    directory, the loop of [main] sends nothing to the database: whatever the
    flag, it ends normally with the cursor untouched, having printed exactly
    one skip notice per table of the load order, in order. *)
Theorem loop_without_files fs base_dir flag (w : World C) :
  (∀ name, name ∈ LOAD_ORDER → fs (os_path_join base_dir (name +:+ ".csv")) = None) →
  for_each (load_one fs base_dir flag) LOAD_ORDER w
  = Some ((), mkWorld (cursor w)
                (trace w ++ ((λ name, Print (NoticeSkip name
                     (os_path_join base_dir (name +:+ ".csv")))) <$> LOAD_ORDER))).
Proof.
  generalize LOAD_ORDER as names. intros names. revert w.
  induction names as [|name names IH]; intros w Hfs.
  - simpl. unfold py_ret. rewrite app_nil_r. by destruct w.
  - cbn [for_each]. unfold py_bind, load_one at 1.
    rewrite (Hfs name) by set_solver. unfold py_print, emit.
    rewrite IH by (intros n Hn; apply Hfs; set_solver).
    simpl. by rewrite <-app_assoc.
Qed.

End NoFiles.

(** ** Quoting of names in the statements *)

Lemma str_app_assoc a b c : (a +:+ b) +:+ c = a +:+ (b +:+ c).
Proof. induction a as [|x a IH]; [done|]. by rewrite !app_String, IH. Qed.

Lemma str_length_app a b : String.length (a +:+ b) = String.length a + String.length b.
Proof. induction a as [|x a IH]; [done|]. rewrite app_String. simpl. by rewrite IH. Qed.

Lemma length_str_replace_backtick s :
  String.length (str_replace backtick "``" s) = String.length s + count_backticks s.
Proof.
  induction s as [|a s IH]; [done|]. cbn [str_replace count_backticks].
  rewrite str_length_app, IH. case_bool_decide; simpl; lia.
Qed.

Lemma count_backticks_0 s : count_backticks s = 0 ↔ no_backtick s = true.
Proof.
  induction s as [|a s IH]; [done|]. simpl.
  case_bool_decide; simpl; [split; [lia|done]|]. by rewrite <-IH.
Qed.

(** X10. The escaping of the column name in the [ALTER TABLE] statement loses
    nothing: a reader of back-quoted identifiers gets the name back, two
    names are escaped alike only if they are the same name, and so two
    [ALTER TABLE] statements for one table coincide only for the same
    column. *)
Theorem escaping_is_faithful :
  (∀ c rest, not_quote_first rest →
     read_quoted (str_replace backtick "``" c +:+ String backtick rest) = Some (c, rest))
  ∧ (∀ c1 c2, str_replace backtick "``" c1 = str_replace backtick "``" c2 → c1 = c2)
  ∧ (∀ table c1 c2, add_column_sql table c1 = add_column_sql table c2 → c1 = c2).
Proof.
  assert (∀ c1 c2 tail, not_quote_first tail →
            str_replace backtick "``" c1 +:+ String backtick tail
            = str_replace backtick "``" c2 +:+ String backtick tail → c1 = c2) as Hinj.
  { intros c1 c2 tail Ht Heq.
    pose proof (read_quoted_escaped c1 _ tail eq_refl Ht) as H1.
    pose proof (read_quoted_escaped c2 _ tail eq_refl Ht) as H2.
    rewrite Heq in H1. congruence. }
  split_and!.
  - intros c rest. by apply read_quoted_escaped.
  - intros c1 c2 Heq. apply (Hinj c1 c2 EmptyString I). by rewrite Heq.
  - intros table c1 c2 Heq. unfold add_column_sql in Heq.
    apply (inj (String.app _)) in Heq. apply (inj (String.app _)) in Heq.
    apply (inj (String.app _)) in Heq.
    by apply (Hinj c1 c2 " TEXT NULL;").
Qed.

Transparent insert_sql insert_ignore_sql.

Lemma length_quoted_columns cols :
  String.length (String.concat ", " (quote_ident <$> cols))
  = String.length (String.concat ", " ((λ c, "`" +:+ c +:+ "`") <$> cols))
    + sum_list (count_backticks <$> cols).
Proof.
  assert (∀ c, String.length (quote_ident c)
               = String.length ("`" +:+ c +:+ "`") + count_backticks c) as Hq.
  { intros c. unfold quote_ident.
    rewrite !str_length_app, length_str_replace_backtick. simpl. lia. }
  induction cols as [|c [|c' cols] IH]; [done| |].
  - change (String.length (quote_ident c)
            = String.length ("`" +:+ c +:+ "`") + (count_backticks c + 0)).
    rewrite Hq. lia.
  - change (String.length (quote_ident c +:+ ", "
              +:+ String.concat ", " (quote_ident <$> c' :: cols))
            = String.length (("`" +:+ c +:+ "`") +:+ ", "
                +:+ String.concat ", " ((λ c, "`" +:+ c +:+ "`") <$> c' :: cols))
              + (count_backticks c + sum_list (count_backticks <$> c' :: cols))).
    rewrite !(str_length_app _ (", " +:+ _)), !(str_length_app ", "), IH, Hq. lia.
Qed.

Lemma length_insert_ignore_sql table cols :
  String.length (insert_ignore_sql table cols)
  = String.length (insert_sql table cols)
    + count_backticks table + sum_list (count_backticks <$> cols).
Proof.
  unfold insert_ignore_sql, insert_sql, quote_ident.
  rewrite !str_length_app, length_quoted_columns, length_str_replace_backtick.
  simpl. lia.
Qed.

(** X11. [load_table] writes the names of its [INSERT] between back-quotes as
    they are, without doubling the back-quotes inside them as the [ALTER
    TABLE] statement does.  The statement it builds is the correctly quoted
    one exactly when neither the table name nor any column name contains a
    back-quote. *)
Theorem insert_sql_well_quoted table cols :
  insert_sql table cols = insert_ignore_sql table cols
  ↔ no_backtick table = true ∧ Forall (λ c, no_backtick c = true) cols.
Proof.
  split.
  - intros Heq.
    pose proof (length_insert_ignore_sql table cols) as Hlen.
    rewrite <-Heq in Hlen.
    assert (count_backticks table = 0) as Ht by lia.
    assert (sum_list (count_backticks <$> cols) = 0) as Hc by lia.
    split; [by apply count_backticks_0|].
    clear -Hc. induction cols as [|c cols IH]; constructor;
      change (count_backticks c + sum_list (count_backticks <$> cols) = 0) in Hc.
    + apply count_backticks_0. lia.
    + apply IH. lia.
  - intros [Ht Hc]. unfold insert_sql, insert_ignore_sql.
    assert (quote_ident <$> cols = (λ c, "`" +:+ c +:+ "`") <$> cols) as ->.
    { apply list_fmap_ext. intros i c Hi. unfold quote_ident.
      rewrite str_replace_no_backtick; [done|].
      by apply (proj1 (Forall_lookup _ _) Hc i). }
    unfold quote_ident. rewrite (str_replace_no_backtick table) by done.
    by rewrite !str_app_assoc.
Qed.

Opaque insert_sql insert_ignore_sql.

(** ** The loop: statements, batches and commits *)

Lemma filter_none {A} (f : A → bool) (l : list A) :
  Forall (λ x, f x = false) l → filter f l = [].
Proof.
  induction 1 as [|x l Hx _ IH]; [done|].
  rewrite filter_cons_False; [done|]. by apply Is_true_false_2.
Qed.

Lemma filter_all {A} (f : A → bool) (l : list A) :
  Forall (λ x, f x = true) l → filter f l = l.
Proof.
  induction 1 as [|x l Hx _ IH]; [done|].
  rewrite filter_cons_True; [by rewrite IH|]. by apply Is_true_true_2.
Qed.

Lemma chunked_length df size :
  size ≠ 0 →
  ∃ parts, chunked df size = Some parts
           ∧ length parts = (len df + size - 1) `div` size.
Proof.
  intros Hs. unfold chunked. rewrite bool_decide_eq_false_2 by done.
  destruct (py_range_0 (len df) size Hs) as (n & -> & Hn & Hlast).
  eexists. split; [done|].
  rewrite !length_fmap, length_seq. by apply range_count.
Qed.

Section Loop.
Context `{PyFloatRepr} `{Cursor C}.

Lemma align_df_to_table_events table df flag (w : World C) df' cols' w' :
  align_df_to_table table df flag w = Some ((df', cols'), w') →
  ∃ evs, trace w' = trace w ++ evs
         ∧ Forall (λ e, loader_event e = true ∧ is_executemany e = false) evs.
Proof.
  intros Ha. apply align_df_to_table_inv in Ha.
  destruct Ha as [tc w0 w2 Hg extra He _ Hen Hg2 df1 Hd|w0 dfd Hg extra He _ -> _ _|Hg He Hd].
  - apply ensure_extra_columns_as_null_inv in Hen as (c2 & _ & ->); [|done].
    rewrite (get_table_columns_trace _ _ _ _ Hg2). simpl.
    rewrite (get_table_columns_trace _ _ _ _ Hg).
    eexists. split; [by rewrite <-!app_assoc|].
    repeat (apply Forall_app; split); try (by repeat constructor).
    apply Forall_fmap, Forall_forall. by intros c _.
  - simpl. rewrite (get_table_columns_trace _ _ _ _ Hg).
    eexists. split; [by rewrite <-!app_assoc|]. by repeat constructor.
  - rewrite (get_table_columns_trace _ _ _ _ Hg).
    eexists. split; [done|]. by repeat constructor.
Qed.

Lemma load_table_events table df flag (w w' : World C) :
  load_table table df flag w = Some ((), w') →
  ∃ evs, trace w' = trace w ++ evs
         ∧ Forall (λ e, loader_event e = true) evs
         ∧ length (filter is_executemany evs) = (len df + 4999) `div` 5000.
Proof.
  intros (df' & cols' & wa & parts & c' & Ha & Hch & _ & ->)%load_table_iff.
  destruct (align_df_to_table_events _ _ _ _ _ _ _ Ha) as (evs & Htr & Hevs).
  destruct (align_df_to_table_shape _ _ _ _ _ _ _ Ha) as (_ & _ & _ & Hlen).
  destruct (chunked_length df' 5000) as (parts' & Hch' & Hn); [done|].
  rewrite Hch in Hch'. simplify_eq.
  exists (evs ++ (ExecuteMany (insert_sql table cols') ∘ to_numpy <$> parts')).
  simpl. split_and!.
  - by rewrite Htr, <-app_assoc.
  - apply Forall_app. split; [by eapply Forall_impl; [done|]; intros e [? _]|].
    apply Forall_fmap, Forall_forall. by intros p _.
  - rewrite filter_app, filter_none, filter_all.
    + simpl. rewrite length_fmap, Hn, Hlen, len_prepared.
      by replace (len df + 5000 - 1) with (len df + 4999) by lia.
    + apply Forall_fmap, Forall_forall. by intros p _.
    + by eapply Forall_impl; [done|]; intros e [_ ?].
Qed.

(** X12. When the file of a table exists and the body of the loop gets through,
    what it has done is, in this order: the load notice, then statements,
    batches and alignment notices only, then one commit, then the closing
    notice with the row count of the file.  Nothing is committed before the
    last batch is sent, and the number of batches is the row count of the
    file divided by 5000, rounded up. *)
Theorem load_one_commits_last fs base_dir flag name df (w w' : World C) :
  let path := os_path_join base_dir (name +:+ ".csv") in
  fs path = Some df →
  load_one fs base_dir flag name w = Some ((), w') →
  ∃ evs, trace w' = trace w ++ Print (NoticeLoad name path) :: evs
                      ++ [Commit; Print (NoticeOk name (len df))]
         ∧ Forall (λ e, loader_event e = true) evs
         ∧ length (filter is_executemany evs) = (len df + 4999) `div` 5000.
Proof.
  intros path Hfs. unfold load_one. fold path. rewrite Hfs.
  unfold py_bind at 1, py_print at 1.
  unfold py_bind at 1.
  destruct (load_table name df flag _) as [[[] w1]|] eqn:Hload; [|done].
  apply load_table_events in Hload as (evs & Htr & Hev & Hn).
  unfold py_bind, py_commit, py_print, emit.
  destruct (commit (cursor w1)) as [c|]; [|done]. simpl. intros [= <-].
  exists evs. simpl. rewrite Htr. simpl. split; [|done].
  by rewrite <-!app_assoc.
Qed.

Lemma load_one_segment fs base_dir flag name (w w' : World C) :
  load_one fs base_dir flag name w = Some ((), w') →
  ∃ seg, trace w' = trace w ++ seg ∧ table_segment fs base_dir name seg.
Proof.
  unfold load_one, table_segment.
  destruct (fs (os_path_join base_dir (name +:+ ".csv"))) as [df|] eqn:Hfs.
  - unfold py_bind at 1, py_print at 1. unfold py_bind at 1.
    destruct (load_table name df flag _) as [[[] w1]|] eqn:Hload; [|done].
    apply load_table_events in Hload as (evs & Htr & Hev & Hn).
    unfold py_bind, py_commit, py_print, emit.
    destruct (commit (cursor w1)) as [c|]; [|done]. simpl. intros [= <-].
    eexists. split; [|by exists evs].
    simpl. rewrite Htr. simpl. by rewrite <-!app_assoc.
  - unfold py_print, emit. intros [= <-]. by eexists.
Qed.

(** X13. A run of the loop of [main] that gets through has gone over the
    tables in the fixed load order, one after the other and each once: what
    it did is, table by table in the order of [LOAD_ORDER], a skip notice
    for a table whose file is absent, and for a table whose file exists the
    load notice, the statements and batches of the load, exactly one commit
    after the last batch, and the closing notice with the row count of the
    file.  So every loaded table is committed once, before the next table
    is touched, and nothing is committed for a skipped one. *)
Theorem loop_follows_load_order fs base_dir flag (w w' : World C) :
  for_each (load_one fs base_dir flag) LOAD_ORDER w = Some ((), w') →
  ∃ segs, trace w' = trace w ++ concat segs
          ∧ Forall2 (table_segment fs base_dir) LOAD_ORDER segs.
Proof.
  generalize LOAD_ORDER as names. intros names. revert w.
  induction names as [|name names IH]; intros w.
  - simpl. unfold py_ret. intros [= <-]. exists []. split; [|constructor].
    simpl. by rewrite app_nil_r.
  - cbn [for_each]. unfold py_bind.
    destruct (load_one fs base_dir flag name w) as [[[] w1]|] eqn:Hone; [|done].
    intros Hrest. apply load_one_segment in Hone as (seg & Htr1 & Hseg).
    apply IH in Hrest as (segs & Htr2 & Hsegs).
    exists (seg :: segs). split; [|by constructor].
    simpl. by rewrite Htr2, Htr1, <-app_assoc.
Qed.

End Loop.

(** ** What a load leaves in the in-memory database *)

Lemma memdb_execute_all_add_rows table extra db db' tb :
  no_backtick table = true →
  tables db !! table = Some tb →
  execute_all (add_column_sql table <$> extra) db = Some db' →
  tables db'
  = <[table := mkTable (tcols tb ++ extra)
                       ((λ r, r ++ replicate (length extra) VNone) <$> trows tb)]> (tables db)
  ∧ Forall (λ c, lower c ∉ lower <$> tcols tb) extra.
Proof.
  intros Ht. revert db tb. induction extra as [|c extra IH]; intros db tb Htb.
  - intros [= <-]. split; [|done]. rewrite app_nil_r.
    assert ((λ r : list value, r ++ replicate (length (@nil string)) VNone) <$> trows tb
            = trows tb) as ->.
    { rewrite <-(list_fmap_id (trows tb)) at 2. apply list_fmap_ext.
      intros i r _. apply app_nil_r. }
    symmetry. apply insert_id. by destruct tb.
  - cbn [fmap list_fmap execute_all].
    change (execute (add_column_sql table c) db)
      with (db_execute (add_column_sql table c) db).
    rewrite db_execute_add, Htb by done. cbn [mbind option_bind].
    rewrite option_guard_decide.
    destruct (decide (lower c ∉ lower <$> tcols tb)) as [Hfresh|]; [|intros [=]].
    cbn [mbind option_bind]. intros Hrest.
    apply (IH _ (add_text_column c tb)) in Hrest as [-> Hall].
    2:{ cbn [tables]. apply lookup_insert_eq. }
    cbn [tables]. rewrite insert_insert_eq. split.
    + f_equal. unfold add_text_column. cbn [tcols trows]. f_equal.
      * by rewrite <-app_assoc.
      * rewrite <-list_fmap_compose. apply list_fmap_ext. intros i r _.
        cbn. by rewrite <-app_assoc.
    + constructor; [done|]. eapply Forall_impl; [exact Hall|].
      intros c' Hc' Hin. apply Hc'. unfold add_text_column. cbn [tcols].
      rewrite fmap_app. apply elem_of_app. by left.
Qed.

Lemma memdb_align_rows table df flag (w w' : World MemDB) df' cols' tb :
  no_backtick table = true →
  tables (cursor w) !! table = Some tb →
  align_df_to_table table df flag w = Some ((df', cols'), w') →
  let added := if flag then filter (λ c, c ∉ tcols tb) (columns df) else [] in
  tables (cursor w')
  = <[table := mkTable (tcols tb ++ added)
                       ((λ r, r ++ replicate (length added) VNone) <$> trows tb)]>
      (tables (cursor w))
  ∧ cols' = tcols tb ++ added
  ∧ Forall (λ c, lower c ∉ lower <$> tcols tb) added.
Proof.
  intros Ht Htb Ha added.
  assert (tables (cursor w)
          = <[table := mkTable (tcols tb ++ [])
                         ((λ r, r ++ replicate (length (@nil string)) VNone) <$> trows tb)]>
              (tables (cursor w))) as Hsame.
  { rewrite app_nil_r.
    assert ((λ r : list value, r ++ replicate (length (@nil string)) VNone) <$> trows tb
            = trows tb) as ->.
    { rewrite <-(list_fmap_id (trows tb)) at 2. apply list_fmap_ext.
      intros i r _. apply app_nil_r. }
    symmetry. apply insert_id. by destruct tb. }
  pose proof (memdb_get_table_columns table w Ht) as Hg0. rewrite Htb in Hg0.
  cbn [mbind option_bind] in Hg0.
  apply align_df_to_table_inv in Ha.
  destruct Ha as [tc w1 w2 Hg extra He Hf Hen Hg2 df1 Hd|w1 dfd Hg extra He Hf -> Hdd Hd|Hg He Hd];
    rewrite Hg0 in Hg; simplify_eq.
  - apply ensure_extra_columns_as_null_inv in Hen as (c2 & Hall & ->); [|done].
    cbn [cursor] in Hall.
    eapply memdb_execute_all_add_rows in Hall as [Htabs Hfresh]; [|done..].
    rewrite memdb_get_table_columns in Hg2 by done. cbn [cursor] in Hg2.
    rewrite Htabs, lookup_insert_eq in Hg2. cbn [mbind option_bind tcols] in Hg2.
    simplify_eq. cbn [cursor tables]. subst added. done.
  - subst added. cbn [cursor emit tables]. split_and!; [done|by rewrite app_nil_r|done].
  - cbn [cursor tables]. subst added. destruct flag.
    + rewrite He. split_and!; [done|by rewrite app_nil_r|done].
    + split_and!; [done|by rewrite app_nil_r|done].
Qed.

Lemma foldl_insert_ignore_app S rs :
  ∃ new, foldl insert_ignore S rs = S ++ new ∧ new `sublist_of` rs.
Proof.
  revert S. induction rs as [|r rs IH]; intros S.
  - exists []. by rewrite app_nil_r.
  - cbn [foldl]. unfold insert_ignore at 2. case_bool_decide.
    + destruct (IH S) as (new & -> & Hsub). exists new. split; [done|].
      by apply sublist_cons.
    + destruct (IH (S ++ [r])) as (new & -> & Hsub). exists (r :: new).
      split; [by rewrite <-app_assoc|]. by apply sublist_skip.
Qed.

Lemma Forall_sublist_of {A} (P : A → Prop) (l k : list A) :
  l `sublist_of` k → Forall P k → Forall P l.
Proof.
  induction 1 as [|x l k _ IH|x l k _ IH]; [done| |];
    intros [Hx Hk]%Forall_cons; [constructor|]; auto.
Qed.

Section Stored.
Context `{PyFloatRepr}.

(** X14. On the in-memory database, a load that gets through only adds.  Every
    other table is left as it was.  In the loaded table the columns it had
    keep their names and positions, and the only new columns are the extra
    columns of the dataset, appended in dataset order when the flag is set.
    Every row stored before is still there, in its place, with a NULL under
    each new column; the rows that are new come after them, at most one per
    row of the dataset, each as wide as the table. *)
Theorem load_table_only_adds table df flag (w w1 : World MemDB) tb :
  no_backtick table = true →
  tables (cursor w) !! table = Some tb →
  load_table table df flag w = Some ((), w1) →
  let added := if flag then filter (λ c, c ∉ tcols tb) (columns df) else [] in
  (∀ t, t ≠ table → tables (cursor w1) !! t = tables (cursor w) !! t)
  ∧ ∃ tb1 new_rows,
      tables (cursor w1) !! table = Some tb1
      ∧ tcols tb1 = tcols tb ++ added
      ∧ trows tb1 = ((λ r, r ++ replicate (length added) VNone) <$> trows tb) ++ new_rows
      ∧ length new_rows ≤ len df
      ∧ Forall (λ r, length r = length (tcols tb1)) new_rows.
Proof.
  intros Ht Htb (df1 & cols1 & wa & parts & c' & Ha & Hch & Hex & ->)%load_table_iff added.
  destruct (memdb_align_rows _ _ _ _ _ _ _ _ Ht Htb Ha) as (Htabs & Hcols & _).
  rewrite columns_prepared in Htabs, Hcols. fold added in Htabs, Hcols.
  destruct (align_df_to_table_shape _ _ _ _ _ _ _ Ha) as (_ & _ & Hwide & Hlen).
  rewrite len_prepared in Hlen.
  destruct (chunked_5000 df1) as (parts' & Hch' & Hcat & _ & _).
  rewrite Hch in Hch'. simplify_eq.
  set (tbw := mkTable (tcols tb ++ added)
                ((λ r, r ++ replicate (length added) VNone) <$> trows tb)) in *.
  eapply (memdb_executemany_all _ _ _ _ _ tbw) in Hex as [Hfin _]; [|done|].
  2:{ rewrite Htabs. apply lookup_insert_eq. }
  cbn [cursor]. rewrite Hfin, Htabs, insert_insert_eq, Hcat. split.
  - intros t Hne. by rewrite lookup_insert_ne.
  - destruct (foldl_insert_ignore_app (trows tbw) (rows df1)) as (new & Hnew & Hsub).
    exists (insert_rows (rows df1) tbw), new.
    split_and!; [apply lookup_insert_eq|done|exact Hnew| |].
    + apply sublist_length in Hsub. unfold len in *. lia.
    + by eapply Forall_sublist_of.
Qed.

End Stored.

(** ** Worked examples for the further properties *)

Lemma align_df_to_table_cells_witness :
  ∃ df' cols' w',
    align_df_to_table "products" demo_df true demo_world = Some ((df', cols'), w')
    ∧ cell df' 0 "name" = Some (VStr "frame")
    ∧ cell df' 0 "category_name" = Some VNone.
Proof.
  destruct (get_table_columns "products" demo_world) as [[tc w1]|] eqn:G;
    [|by vm_compute in G].
  destruct (align_df_to_table "products" demo_df true demo_world)
    as [[[df' cols'] w']|] eqn:E; [|by vm_compute in E].
  exists df', cols', w'. split; [done|].
  pose proof (align_df_to_table_cells _ _ _ _ _ _ _ _ _ demo_df_wf G E) as Hcell.
  assert (tc = ["id"; "name"]) as -> by (vm_compute in G; congruence).
  assert (cols' = ["id"; "name"; "category_name"]) as ->
    by (vm_compute in E; congruence).
  split.
  - rewrite (Hcell "name" 0) by compute_done. by vm_compute.
  - rewrite (Hcell "category_name" 0) by compute_done. by vm_compute.
Defined.

Lemma align_df_to_table_read_only_witness :
  ∃ df' cols' w',
    align_df_to_table "products" demo_df false demo_world = Some ((df', cols'), w')
    ∧ cols' = ["id"; "name"]
    ∧ columns df' = ["id"; "name"].
Proof.
  destruct (get_table_columns "products" demo_world) as [[tc w1]|] eqn:G;
    [|by vm_compute in G].
  destruct (align_df_to_table "products" demo_df false demo_world)
    as [[[df' cols'] w']|] eqn:E; [|by vm_compute in E].
  exists df', cols', w'. split; [done|].
  destruct (align_df_to_table_read_only _ _ _ _ _ _ _ _ _ demo_df_wf G
              (or_introl eq_refl) E) as (-> & _ & _ & -> & _).
  assert (tc = ["id"; "name"]) as -> by (vm_compute in G; congruence).
  done.
Defined.

Lemma chunked_count_witness :
  ∃ parts, chunked demo_df 1 = Some parts ∧ length parts = 2.
Proof.
  destruct (proj2 chunked_count demo_df 1 ltac:(lia)) as (parts & Hc & Hn & _).
  by exists parts.
Defined.

Lemma normalise_nulls_idempotent_witness :
  VStr "frame" = VNone ∨ VStr "frame" ∉ null_like.
Proof.
  exact (proj2 (normalise_nulls_idempotent demo_df) 0 "name" (VStr "frame") eq_refl).
Defined.


Lemma load_table_empty_witness :
  ∃ w', load_table (H:=demo_float_repr) "products" (mkDF ["id"; "name"] []) true demo_world
        = Some ((), w')
        ∧ trace w' = [Execute "SHOW COLUMNS FROM `products`;"].
Proof.
  rewrite (load_table_empty (H:=demo_float_repr) "products" (mkDF ["id"; "name"] []) true
             demo_world eq_refl).
  destruct (align_df_to_table "products" _ true demo_world)
    as [[[df' cols'] w']|] eqn:E; [|by vm_compute in E].
  exists w'. split; [done|]. vm_compute in E. by simplify_eq.
Defined.

Lemma parse_args_attributes_witness :
  ∃ args u,
    parse_args (argparse:=demo_argparse) ap
      ["--user"; "root"; "--password=secret"; "--database"; "shop"] = Some args
    ∧ dict_get "user" args VNone = VStr u.
Proof.
  destruct (parse_args (argparse:=demo_argparse) ap
              ["--user"; "root"; "--password=secret"; "--database"; "shop"])
    as [args|] eqn:E; [|by vm_compute in E].
  destruct (parse_args_attributes (argparse:=demo_argparse) _ _ E)
    as ((u & p & d & Hu & _) & _).
  by exists args, u.
Defined.

Lemma loop_without_files_witness :
  ∃ w', for_each (load_one (H:=demo_float_repr) (λ _, None) "./ag_data/clean" true)
                 LOAD_ORDER demo_world
        = Some ((), w')
        ∧ cursor w' = demo_db
        ∧ length (trace w') = 21.
Proof.
  eexists. split.
  - by apply (loop_without_files (H:=demo_float_repr) (λ _, None) "./ag_data/clean" true
                demo_world).
  - done.
Defined.

Lemma escaping_is_faithful_witness :
  read_quoted (str_replace backtick "``" "a`b" +:+ String backtick " TEXT NULL;")
  = Some ("a`b", " TEXT NULL;").
Proof. exact (proj1 escaping_is_faithful "a`b" " TEXT NULL;" ltac:(done)). Defined.

Lemma insert_sql_well_quoted_witness :
  insert_sql "products" ["id"; "name"] = insert_ignore_sql "products" ["id"; "name"].
Proof.
  apply (proj2 (insert_sql_well_quoted "products" ["id"; "name"])).
  split; [done|]. by repeat constructor.
Defined.

Lemma load_one_commits_last_witness :
  ∃ w' evs,
    load_one (H:=demo_float_repr) (λ _, Some demo_df) "d" true "products" demo_world
    = Some ((), w')
    ∧ trace w' = Print (NoticeLoad "products" "d/products.csv") :: evs
                   ++ [Commit; Print (NoticeOk "products" 2)]
    ∧ length (filter is_executemany evs) = 1.
Proof.
  destruct (load_one (H:=demo_float_repr) (λ _, Some demo_df) "d" true "products" demo_world)
    as [[[] w']|] eqn:E; [|by vm_compute in E].
  destruct (load_one_commits_last (H:=demo_float_repr) (λ _, Some demo_df) "d" true
              "products" demo_df demo_world w' eq_refl E) as (evs & Htr & _ & Hn).
  exists w', evs. split_and!; [done|exact Htr|exact Hn].
Defined.

Lemma loop_follows_load_order_witness :
  let fs : FileSystem :=
    λ path, if bool_decide (path = "d/products.csv") then Some demo_df else None in
  ∃ w' segs,
    for_each (load_one (H:=demo_float_repr) fs "d" true) LOAD_ORDER demo_world = Some ((), w')
    ∧ trace w' = concat segs
    ∧ Forall2 (table_segment fs "d") LOAD_ORDER segs.
Proof.
  intros fs.
  destruct (for_each (load_one (H:=demo_float_repr) fs "d" true) LOAD_ORDER demo_world)
    as [[[] w']|] eqn:E; [|by vm_compute in E].
  destruct (loop_follows_load_order (H:=demo_float_repr) fs "d" true demo_world w' E)
    as (segs & Htr & Hsegs).
  by exists w', segs.
Defined.

Lemma load_table_only_adds_witness :
  ∃ w1 tb1,
    load_table (H:=demo_float_repr) "products" demo_df true demo_world = Some ((), w1)
    ∧ tables (cursor w1) !! "products" = Some tb1
    ∧ tcols tb1 = ["id"; "name"; "category_name"].
Proof.
  destruct (load_table (H:=demo_float_repr) "products" demo_df true demo_world)
    as [[[] w1]|] eqn:E; [|by vm_compute in E].
  destruct (load_table_only_adds (H:=demo_float_repr) "products" demo_df true
              demo_world w1 (mkTable ["id"; "name"] []) eq_refl
              ltac:(by vm_compute) E) as (_ & tb1 & new_rows & Htb1 & Hcols & _).
  exists w1, tb1. split_and!; [done|exact Htb1|]. rewrite Hcols. by vm_compute.
Defined.
